(** * People headcount scenarios: roster loading, selection and summary

    A shallow embedding of [people_headcount_app.py].  The script reads an
    employee roster with pandas, keeps the employee rows with a numeric
    compensation, sorts them by [comp_usd], keeps the first
    [target_headcount] rows and shows their total, mean and median.

    The pandas and numpy calls the script makes are modelled by what they
    compute on the values that can reach them:
    - a column of [int64] is a [list Z] (sums and casts wrap around at 64
      bits);
    - a [float64] is [NaN], an infinity or a finite rational, and every
      float operation rounds its exact result to 53 bits, ties to even;
    - a raised exception is the [Raise] branch of [result];
    - what the page shows is the list of the [st.*] calls made, in order. *)

From Stdlib Require Import List ZArith QArith String Ascii Bool Lia.
From Stdlib Require Import Permutation Sorted.
From Stdlib Require DecimalString DecimalN.
Import ListNotations.

Local Open Scope Z_scope.

(** ** Exceptions *)

Inductive exn : Type :=
| RuntimeError (msg : string)
| KeyError (key : string)
| ValueError (msg : string)
| OverflowError (msg : string)
| IntCastingNaNError (msg : string)
| OSError (msg : string).

Inductive result (A : Type) : Type :=
| Ok (a : A)
| Raise (e : exn).

Arguments Ok {A} a.
Arguments Raise {A} e.

Definition bind {A B : Type} (r : result A) (k : A -> result B) : result B :=
  match r with
  | Ok a => k a
  | Raise e => Raise e
  end.

Notation "x <- r ;; k" := (bind r (fun x => k))
  (at level 61, r at next level, right associativity).

(** ** IEEE binary64 *)

Module Float64.

(** A binary64 value.  A finite value is kept as the rational it denotes;
    the operations below only ever build rationals that binary64 holds. *)
Inductive float64 : Type :=
| NaN
| Inf (negative : bool)
| Finite (q : Q).

(** The integer nearest to [a / b] for [0 < b], halves going to the even
    neighbour. *)
Definition half_even (a b : Z) : Z :=
  let f := a / b in
  match 2 * (a mod b) ?= b with
  | Lt => f
  | Gt => f + 1
  | Eq => if Z.even f then f else f + 1
  end.

(** [2 ^ k], and [1] for a negative [k]. *)
Definition pow2 (k : Z) : Z := 2 ^ Z.max k 0.

(** [floor (log2 (n / d))]. *)
Definition ilog2 (n d : positive) : Z :=
  let e := Z.log2 (Zpos n) - Z.log2 (Zpos d) in
  if Zpos d * pow2 e <=? Zpos n * pow2 (- e) then e else e - 1.

(** [m * 2 ^ s] for an exponent of either sign. *)
Definition scale2 (m s : Z) : Q :=
  Qmake (m * pow2 s) (Z.to_pos (pow2 (- s))).

(** Round the positive rational [n / d] to the nearest binary64, ties to
    even: 53 significant bits in the normal range, multiples of
    [2 ^ -1074] below it, infinity from [2 ^ 1024] on. *)
Definition round_pos (n d : positive) : option Q :=
  let e := Z.max (ilog2 n d) (- 1022) in
  let s := e - 52 in
  let m := half_even (Zpos n * pow2 (- s)) (Zpos d * pow2 s) in
  if 2 ^ 1024 <=? m * pow2 s then None else Some (scale2 m s).

Definition round (q : Q) : float64 :=
  match Qnum q with
  | Z0 => Finite 0
  | Zpos n =>
      match round_pos n (Qden q) with
      | Some r => Finite r
      | None => Inf false
      end
  | Zneg n =>
      match round_pos n (Qden q) with
      | Some r => Finite (Qopp r)
      | None => Inf true
      end
  end.

(** [np.float64(z)], the conversion of an [int64]. *)
Definition of_int (z : Z) : float64 := round (inject_Z z).

(** [x + y]. *)
Definition add (x y : float64) : float64 :=
  match x, y with
  | NaN, _ | _, NaN => NaN
  | Inf a, Inf b => if Bool.eqb a b then Inf a else NaN
  | Inf a, Finite _ | Finite _, Inf a => Inf a
  | Finite p, Finite q => round (Qplus p q)
  end.

Definition is_zero (q : Q) : bool := Qnum q =? 0.
Definition is_neg (q : Q) : bool := Qnum q <? 0.

(** [x / y], as numpy divides (no exception on a zero divisor). *)
Definition div (x y : float64) : float64 :=
  match x, y with
  | NaN, _ | _, NaN => NaN
  | Inf _, Inf _ => NaN
  | Inf a, Finite q => Inf (xorb a (is_neg q))
  | Finite _, Inf _ => Finite 0
  | Finite p, Finite q =>
      if is_zero q then (if is_zero p then NaN else Inf (is_neg p))
      else round (Qdiv p q)
  end.

(** [x <= y] on floats; false when either side is [NaN]. *)
Definition leb (x y : float64) : bool :=
  match x, y with
  | NaN, _ | _, NaN => false
  | Inf a, Inf b => implb b a
  | Inf a, Finite _ => a
  | Finite _, Inf b => negb b
  | Finite p, Finite q => Qle_bool p q
  end.

Definition isnan (x : float64) : bool :=
  match x with NaN => true | _ => false end.

Definition isfinite (x : float64) : bool :=
  match x with Finite _ => true | _ => false end.

(** Truncation toward zero. *)
Definition trunc (q : Q) : Z := Z.quot (Qnum q) (Zpos (Qden q)).

(** The conversion of a finite double to [int64] that [ndarray.astype]
    applies to each value: truncation toward zero when the result is an
    [int64].  Outside that range C leaves the conversion undefined; the
    x86-64 instruction numpy compiles it to returns [- 2 ^ 63]. *)
Definition to_int64 (q : Q) : Z :=
  let z := trunc q in
  if (- 2 ^ 63 <=? z) && (z <? 2 ^ 63) then z else - 2 ^ 63.

(** Python's [int(x)] on a float. *)
Definition int_of_float (x : float64) : result Z :=
  match x with
  | NaN => Raise (ValueError "cannot convert float NaN to integer")
  | Inf _ => Raise (OverflowError "cannot convert float infinity to integer")
  | Finite q => Ok (trunc q)
  end.

End Float64.

(** ** The pandas operations the script calls *)

Module Pandas.

Import Float64.

Local Open Scope string_scope.

(** [s.startswith(prefix)]. *)
Definition startswith (pre s : string) : bool := String.prefix pre s.

(** What [pd.read_csv(path, dtype=str, keep_default_na=False)] returns: the
    header, and every later line as its cells, all of them strings (an empty
    cell is the empty string, never a missing value). *)
Record RawFrame : Type := {
  raw_columns : list string;
  raw_records : list (list string)
}.

Fixpoint index_of (name : string) (cols : list string) : option nat :=
  match cols with
  | [] => None
  | c :: cols' =>
      if String.eqb name c then Some O
      else option_map S (index_of name cols')
  end.

(** ["name" in df.columns]. *)
Definition has_column (name : string) (cols : list string) : bool :=
  match index_of name cols with Some _ => true | None => false end.

(** The cell of a record under a column. *)
Definition cell (cols : list string) (name : string) (r : list string) : string :=
  match index_of name cols with
  | Some i => nth i r ""
  | None => ""
  end.

(** A row once [comp_usd] has left the strings: the cells as read, and the
    value the [comp_usd] column now holds for the row: after
    [pd.to_numeric] an integer or a [float64], by the dtype of the column,
    and after [astype(int)] an [int64]. *)
Record row (C : Type) : Type := {
  cells : list string;
  comp_usd : C
}.
Arguments cells {C} r.
Arguments comp_usd {C} r.

Record DataFrame (C : Type) : Type := {
  columns : list string;
  rows : list (row C)
}.
Arguments columns {C} d.
Arguments rows {C} d.

(** The [int64] an integer wraps around to. *)
Definition wrap64 (z : Z) : Z := ((z + 2 ^ 63) mod 2 ^ 64 - 2 ^ 63)%Z.

(** What pandas reads in one cell of a column of strings
    ([maybe_convert_numeric]): [Integer z x] for an integer literal that
    reads as a finite float, with the integer and that float; [Real x] for
    any other text, with the float read from it, which is [NaN] under
    [errors="coerce"] when the text denotes no number. *)
Inductive numeral : Type :=
| Integer (z : Z) (x : Q)
| Real (x : float64).

(** The float read from the cell. *)
Definition to_float (n : numeral) : float64 :=
  match n with
  | Integer _ x => Finite x
  | Real x => x
  end.

(** The integer read from the cell; [0] stands in where there is none. *)
Definition integer_of (n : numeral) : Z :=
  match n with
  | Integer z _ => z
  | Real _ => 0%Z
  end.

(** The cell is an integer literal that [int64] or [uint64] holds. *)
Definition is_integer (n : numeral) : bool :=
  match n with
  | Integer z _ => ((- 2 ^ 63 <=? z) && (z <? 2 ^ 64))%Z
  | Real _ => false
  end.

(** A numeric column, by its dtype. *)
Inductive Series : Type :=
| Int64Series (values : list Z)
| UInt64Series (values : list Z)
| Float64Series (values : list float64).

Section Conversion.

(** The reading of one cell: pandas' [floatify] and, for an integer
    literal, Python's [int]. *)
Variable floatify : string -> numeral.

(** [pd.to_numeric(column, errors="coerce")] on a column of strings.  The
    dtype is decided by the whole column: [float64] as soon as one cell is
    not an integer that 64 bits hold, or when a negative integer meets one
    past [2 ^ 63 - 1]; otherwise [uint64] when an integer is past
    [2 ^ 63 - 1], and [int64] when none is.  An [int64] or [uint64] column
    holds the integers; a [float64] column holds the float read from each
    cell. *)
Definition to_numeric (values : list string) : Series :=
  let seen := map floatify values in
  let float_ := existsb (fun n => negb (is_integer n)) seen in
  let sint_ := existsb (fun n => (integer_of n <? 0)%Z) seen in
  let uint_ := existsb (fun n => (2 ^ 63 <=? integer_of n)%Z) seen in
  if float_ || (uint_ && sint_) then Float64Series (map to_float seen)
  else if uint_ then UInt64Series (map integer_of seen)
  else Int64Series (map integer_of seen).

End Conversion.

(** [df["comp_usd"] = values]: every line with its converted value. *)
Definition assign {C : Type}
    (records : list (list string)) (values : list C) : list (row C) :=
  map (fun p => {| cells := fst p; comp_usd := snd p |})
      (combine records values).

(** [df.dropna(subset=["comp_usd"])] on a [float64] column; a column of
    integers has no missing value to drop. *)
Definition dropna (rs : list (row float64)) : list (row float64) :=
  filter (fun r => negb (isnan (comp_usd r))) rs.

(** [df["comp_usd"].astype(int)] on a [float64] column: pandas refuses a
    column with a NaN or an infinity, and otherwise numpy converts every
    value to [int64]. *)
Definition astype_int (rs : list (row float64)) : result (list (row Z)) :=
  if forallb (fun r => isfinite (comp_usd r)) rs
  then Ok (map (fun r =>
                  {| cells := cells r;
                     comp_usd := match comp_usd r with
                                 | Finite q => to_int64 q
                                 | _ => 0%Z
                                 end |}) rs)
  else Raise (IntCastingNaNError
                "Cannot convert non-finite values (NA or inf) to integer").

(** [df["comp_usd"].astype(int)] on a [uint64] column: numpy reinterprets
    every value as an [int64].  On an [int64] column the cast changes
    nothing. *)
Definition uint64_astype_int (rs : list (row Z)) : list (row Z) :=
  map (fun r => {| cells := cells r; comp_usd := wrap64 (comp_usd r) |}) rs.

(** [df.head(n)]: the first [n] rows, and all but the last [-n] rows for a
    negative [n]. *)
Definition head {A : Type} (n : Z) (l : list A) : list A :=
  if (0 <=? n)%Z then firstn (Z.to_nat n) l
  else firstn (List.length l - Z.to_nat (- n)) l.

(** [df.take(indexer)], positions outside the frame left out (pandas raises
    there; an indexer built by [nargsort] holds none). *)
Definition take {A : Type} (indexer : list nat) (l : list A) : list A :=
  flat_map (fun i => match nth_error l i with
                     | Some x => [x]
                     | None => []
                     end) indexer.

Section Sorting.

(** [ndarray.argsort(kind="quicksort")] on an [int64] array, numpy's
    default sort: a vectorised sort where numpy dispatches one (recent
    x86-64 processors), its generic introsort elsewhere.  numpy promises that
    it returns the positions of the array, each once, in an order that
    sorts the array; it promises no order among equal values, and the two
    implementations do order them differently.  The facts about the
    selection assume exactly the promise. *)
Variable argsort : list Z -> list nat.

(** [pandas.core.sorting.nargsort] on a column without missing values:
    a descending sort reverses the column, sorts it, and reverses the
    result. *)
Definition nargsort (items : list Z) (ascending : bool) : list nat :=
  let idx := seq 0 (List.length items) in
  let nonnan := if ascending then items else rev items in
  let nonnan_idx := if ascending then idx else rev idx in
  let indexer := map (fun j => nth j nonnan_idx O) (argsort nonnan) in
  if ascending then indexer else rev indexer.

(** [df.sort_values("comp_usd", ascending=ascending)], with the default
    [kind="quicksort"]. *)
Definition sort_values (rs : list (row Z)) (ascending : bool) : list (row Z) :=
  take (nargsort (map comp_usd rs) ascending) rs.

End Sorting.

(** [series.sum()] on an [int64] column. *)
Definition series_sum (l : list Z) : Z := wrap64 (fold_left Z.add l 0%Z).

(** [series.mean()] on an [int64] column: the values are added as
    [float64] and the sum is divided by the number of values. *)
Definition series_mean (l : list Z) : float64 :=
  if (List.length l =? 0)%nat then NaN
  else div (fold_left add (map of_int l) (Finite 0))
           (of_int (Z.of_nat (List.length l))).

Fixpoint insert_sorted {A : Type} (le : A -> A -> bool) (x : A) (l : list A) : list A :=
  match l with
  | [] => [x]
  | y :: l' => if le x y then x :: l else y :: insert_sorted le x l'
  end.

Definition sorted {A : Type} (le : A -> A -> bool) (l : list A) : list A :=
  fold_right (insert_sorted le) [] l.

(** [series.median()] on an [int64] column: the values are converted to
    [float64] and ordered; the result is the middle one, or the float mean
    of the two middle ones. *)
Definition series_median (l : list Z) : float64 :=
  let s := sorted leb (map of_int l) in
  let n := List.length s in
  if (n =? 0)%nat then NaN
  else if Nat.odd n then nth (n / 2) s NaN
  else div (add (nth (n / 2 - 1) s NaN) (nth (n / 2) s NaN)) (of_int 2).

End Pandas.

(** ** The script *)

Module App.

Import Float64 Pandas.

Section Loader.

(** The reading of one cell by [pd.to_numeric]. *)
Variable floatify : string -> numeral.

(** [load_roster], given what [pd.read_csv] returned or raised.  Line 37
    converts the whole column, footer lines included, before line 39
    filters the lines; lines 40 and 42 then depend on the dtype line 37
    chose. *)
Definition load_roster (csv : result RawFrame) : result (DataFrame Z) :=
  df <- csv ;;
  let cols := raw_columns df in
  if negb (has_column "comp_usd" cols)
  then Raise (RuntimeError "Expected column 'comp_usd' in roster CSV")
  else
    let numeric :=
      to_numeric floatify (map (cell cols "comp_usd") (raw_records df)) in
    if negb (has_column "employee_id" cols)
    then Raise (KeyError "employee_id")
    else
      let employees := fun (C : Type) (values : list C) =>
        filter (fun r => startswith "E" (cell cols "employee_id" (cells r)))
               (assign (raw_records df) values) in
      rs <- match numeric with
            | Int64Series values => Ok (employees Z values)
            | UInt64Series values =>
                Ok (uint64_astype_int (employees Z values))
            | Float64Series values =>
                astype_int (dropna (employees float64 values))
            end ;;
      Ok {| columns := cols; rows := rs |}.

End Loader.

(** [roster_df.sort_values("comp_usd", ascending=ascending).head(target_headcount)]. *)
Definition select (argsort : list Z -> list nat)
    (roster : list (row Z)) (target_headcount : Z) (ascending : bool)
  : list (row Z) :=
  head target_headcount (sort_values argsort roster ascending).

(** [selected.empty]. *)
Definition empty {A : Type} (selected : list A) : bool :=
  (List.length selected =? 0)%nat.

(** Line 77. *)
Definition total_cost (selected : list (row Z)) : Z :=
  if negb (empty selected) then series_sum (map comp_usd selected) else 0%Z.

(** Line 78. *)
Definition average_cost (selected : list (row Z)) : result Z :=
  if negb (empty selected)
  then int_of_float (series_mean (map comp_usd selected))
  else Ok 0%Z.

(** Line 79. *)
Definition median_cost (selected : list (row Z)) : result Z :=
  if negb (empty selected)
  then int_of_float (series_median (map comp_usd selected))
  else Ok 0%Z.

Record Summary : Type := {
  count : Z;
  total : Z;
  average : Z;
  median : Z
}.

(** The number of selected rows and the three statistics, computed in the
    order of the script. *)
Definition summarize (selected : list (row Z)) : result Summary :=
  let sum := total_cost selected in
  mean <- average_cost selected ;;
  med <- median_cost selected ;;
  Ok {| count := Z.of_nat (List.length selected);
        total := sum;
        average := mean;
        median := med |}.

(** *** The page *)

(** The calls that put something on the page, with the data they show. *)
Inductive st_call : Type :=
| st_set_page_config
| st_markdown (body : string)
| st_error (msg : string)
| st_sidebar_header (label : string)
| st_sidebar_slider (min_value max_value value : Z)
| st_sidebar_radio (label : string)
| st_sidebar_selectbox (label : string)
| st_columns
| card_headcount (selected total : Z)
| card_usd (label : string) (value : Z)
| st_info (msg : string)
| st_table (shown : list (row Z))
| st_download_button (exported : list (row Z))
| st_altair_chart (bars : list (row Z))
| st_caption (total : Z).

(** How a run of the script ends. *)
Inductive outcome : Type :=
| Finished
| Stopped
| Crashed (e : exn).

(** [str(exc)], for the exceptions [load_roster] raises: the message, and
    for a [KeyError] the quoted key. *)
Definition str (e : exn) : string :=
  match e with
  | KeyError key => ("'" ++ key ++ "'")%string
  | RuntimeError msg | ValueError msg | OverflowError msg
  | IntCastingNaNError msg | OSError msg => msg
  end.

(** What the widgets return on this run. *)
Record Inputs : Type := {
  target_headcount : Z;
  priority_option : string;
  accent_choice : string
}.

(** Lines 8 to 27: page configuration, style sheet, title and subtitle. *)
Definition page_head : list st_call :=
  [ st_set_page_config;
    st_markdown "style";
    st_markdown "app-title";
    st_markdown "app-sub" ].

Definition display_cols : list string :=
  ["employee_id"; "name"; "role"; "department"; "location"; "comp_usd"]%string.

(** The message of the [KeyError] that [selected[display_cols]] raises
    when some of the columns asked for, not all, are missing: the Python
    list of the missing names, then [not in index]. *)
Definition not_in_index (missing : list string) : string :=
  ("[" ++ String.concat ", " (map (fun c => "'" ++ c ++ "'") missing)
   ++ "] not in index")%string.

(** Lines 52 to 127, for a roster that loaded; its columns then include
    [employee_id] and [comp_usd], so the display columns are never all
    missing.  Line 97 raises for all the missing display columns at once.
    Line 112 resets the index without dropping it: pandas inserts it as a
    column [index], or [level_0] when the file has a column [index], and
    raises when the file has that one too. *)
Definition dashboard (argsort : list Z -> list nat)
    (roster_df : DataFrame Z) (ui : Inputs) : list st_call * outcome :=
  let total_employees := Z.of_nat (List.length (rows roster_df)) in
  let sidebar :=
    [ st_sidebar_header "Scenario inputs";
      st_sidebar_slider 0 total_employees (Z.min 10 total_employees);
      st_sidebar_radio "Prioritize by compensation";
      st_sidebar_selectbox "Accent color" ] in
  let ascending := startswith "Lowest" (priority_option ui) in
  let selected :=
    select argsort (rows roster_df) (target_headcount ui) ascending in
  match summarize selected with
  | Raise e => (sidebar, Crashed e)
  | Ok s =>
      let cards :=
        [ st_columns;
          card_headcount (count s) total_employees;
          card_usd "Total compensation" (total s);
          card_usd "Average compensation"
                   (if empty selected then 0%Z else average s);
          card_usd "Median compensation"
                   (if empty selected then 0%Z else median s);
          st_markdown "### Selected employees" ] in
      let tail_ :=
        [ st_markdown "### Compensation breakdown" ]
        ++ (if empty selected then [] else [st_altair_chart selected])
        ++ [ st_markdown "---"; st_caption total_employees ] in
      if empty selected
      then (sidebar ++ cards
            ++ [st_info "No employees selected for the current headcount."]
            ++ tail_, Finished)
      else
        let missing :=
          filter (fun c => negb (has_column c (columns roster_df)))
                 display_cols in
        if negb (empty missing)
        then (sidebar ++ cards, Crashed (KeyError (not_in_index missing)))
        else
          let table :=
            [ st_markdown "<div class=data-table>";
              st_table selected;
              st_markdown "</div>";
              st_download_button selected ] in
          if has_column "index" (columns roster_df)
             && has_column "level_0" (columns roster_df)
          then (sidebar ++ cards ++ table
                ++ [ st_markdown "### Compensation breakdown" ],
                Crashed (ValueError "cannot insert level_0, already exists"))
          else (sidebar ++ cards ++ table ++ tail_, Finished)
  end.

(** One run of the script. *)
Definition run (floatify : string -> numeral)
    (argsort : list Z -> list nat)
    (csv : result RawFrame) (ui : Inputs) : list st_call * outcome :=
  match load_roster floatify csv with
  | Raise exc =>
      (page_head ++ [st_error ("Could not load roster: " ++ str exc)%string],
       Stopped)
  | Ok roster_df =>
      let (shown, how) := dashboard argsort roster_df ui in
      (page_head ++ shown, how)
  end.

(** *** Amounts as text *)

(** The decimal digits of a natural number. *)
Definition decimal (n : N) : string :=
  DecimalString.NilZero.string_of_uint (N.to_uint n).

(** Walking the digits from the last one, a comma goes in after every
    third; [k] counts the digits written since the last comma. *)
Fixpoint commas (k : nat) (digits_from_last : list ascii) : list ascii :=
  match digits_from_last with
  | [] => []
  | d :: rest =>
      if (k =? 3)%nat then ","%char :: d :: commas 1 rest
      else d :: commas (S k) rest
  end.

(** The [,] of the format: the digits in groups of three from the right. *)
Definition thousands (digits : string) : string :=
  string_of_list_ascii (rev (commas 0 (rev (list_ascii_of_string digits)))).

(** [format(x, ",.0f")] on a float: no decimals, the value rounded to the
    nearest integer, halves to the even one. *)
Definition format_f0 (x : float64) : string :=
  match x with
  | NaN => "nan"
  | Inf negative => if negative then "-inf" else "inf"
  | Finite q =>
      let n := half_even (Qnum q) (Zpos (Qden q)) in
      ((if (Qnum q <? 0)%Z then "-" else "")
       ++ thousands (decimal (Z.abs_N n)))%string
  end.

(** [_fmt]: Python turns the integer into a float to apply a float format
    to it. *)
Definition _fmt (x : Z) : string := ("$" ++ format_f0 (of_int x))%string.

End App.

(** ** The library routines the script reaches by default *)

Module Numpy.

(** *** [ndarray.argsort(kind="stable")]

    Extensionally: the positions ordered by value, and by position among
    equal values. *)

Definition le_keyed (a b : Z * nat) : bool := (fst a <=? fst b)%Z.

Definition argsort_stable (v : list Z) : list nat :=
  map snd (Pandas.sorted le_keyed (combine v (seq 0 (List.length v)))).

(** *** [ndarray.argsort(kind="quicksort")], the generic build

    numpy's [aquicksort_]: an introsort on the array of positions
    [tosort], median of three, insertion sort for sixteen elements or
    fewer, heapsort once the depth budget is spent.  Pointers into
    [tosort] are positions in the list.  This is the code [argsort] runs
    on an [int64] array where numpy dispatches no vectorised sort.  The
    vectorised sort that recent x86-64 processors get orders equal values
    in another way and is not modelled here. *)

Section Introsort.

Variable v : list Z.

Definition SMALL_QUICKSORT : nat := 16.

Fixpoint upd (a : list nat) (i x : nat) : list nat :=
  match a, i with
  | [], _ => []
  | _ :: a', O => x :: a'
  | y :: a', S i' => y :: upd a' i' x
  end.

(** [INTP_SWAP(\*p, \*q)]. *)
Definition swap (a : list nat) (p q : nat) : list nat :=
  upd (upd a p (nth q a O)) q (nth p a O).

(** [v[\*p]]. *)
Definition at_ (a : list nat) (p : nat) : Z := nth (nth p a O) v 0%Z.

Definition less (x y : Z) : bool := (x <? y)%Z.

(** [do { ++pi; } while (less(v[\*pi], vp));] *)
Fixpoint scan_up (fuel : nat) (a : list nat) (vp : Z) (pi : nat) : nat :=
  match fuel with
  | O => S pi
  | S fuel' =>
      if less (at_ a (S pi)) vp then scan_up fuel' a vp (S pi) else S pi
  end.

(** [do { --pj; } while (less(vp, v[\*pj]));] *)
Fixpoint scan_down (fuel : nat) (a : list nat) (vp : Z) (pj : nat) : nat :=
  match fuel with
  | O => pred pj
  | S fuel' =>
      if less vp (at_ a (pred pj)) then scan_down fuel' a vp (pred pj)
      else pred pj
  end.

(** The [for (;;)] loop of the partition; returns the array and [pi]. *)
Fixpoint partition_loop (fuel : nat) (a : list nat) (vp : Z) (pi pj : nat)
  : list nat * nat :=
  match fuel with
  | O => (a, pi)
  | S fuel' =>
      let pi' := scan_up (List.length a) a vp pi in
      let pj' := scan_down (List.length a) a vp pj in
      if (pj' <=? pi')%nat then (a, pi')
      else partition_loop fuel' (swap a pi' pj') vp pi' pj'
  end.

(** One pass of the [while ((pr - pl) > SMALL_QUICKSORT)] body up to the
    final swap; returns the array and the pivot's position. *)
Definition partition (a : list nat) (pl pr : nat) : list nat * nat :=
  let pm := (pl + (pr - pl) / 2)%nat in
  let a := if less (at_ a pm) (at_ a pl) then swap a pm pl else a in
  let a := if less (at_ a pr) (at_ a pm) then swap a pr pm else a in
  let a := if less (at_ a pm) (at_ a pl) then swap a pm pl else a in
  let vp := at_ a pm in
  let pj := (pr - 1)%nat in
  let a := swap a pm pj in
  let '(a, pi) := partition_loop (List.length a) a vp pl pj in
  (swap a pi (pr - 1)%nat, pi).

(** The inner [while] of the insertion sort: move [vi] down from [pj]. *)
Fixpoint sift_left (fuel : nat) (a : list nat) (pl : nat) (vi : nat) (pj : nat)
  : list nat :=
  match fuel with
  | O => upd a pj vi
  | S fuel' =>
      if (pl <? pj)%nat && less (nth vi v 0%Z) (at_ a (pj - 1))
      then sift_left fuel' (upd a pj (nth (pj - 1) a O)) pl vi (pj - 1)
      else upd a pj vi
  end.

(** [for (pi = pl + 1; pi <= pr; ++pi)]. *)
Definition insertion_sort (a : list nat) (pl pr : nat) : list nat :=
  fold_left (fun a pi => sift_left (List.length a) a pl (nth pi a O) pi)
            (seq (S pl) (pr - pl)) a.

(** The sift-down loop shared by the two phases of [aheapsort_], on the
    one-based view [h[i] = tosort[pl + i - 1]]. *)
Fixpoint sift_down (fuel : nat) (a : list nat) (pl n tmp i j : nat) : list nat :=
  let h k := nth (pl + k - 1) a O in
  match fuel with
  | O => upd a (pl + i - 1) tmp
  | S fuel' =>
      if (j <=? n)%nat then
        let j := if (j <? n)%nat
                    && less (nth (h j) v 0%Z) (nth (h (S j)) v 0%Z)
                 then S j else j in
        if less (nth tmp v 0%Z) (nth (h j) v 0%Z)
        then sift_down fuel' (upd a (pl + i - 1) (h j)) pl n tmp j (j + j)
        else upd a (pl + i - 1) tmp
      else upd a (pl + i - 1) tmp
  end.

Definition aheapsort (a : list nat) (pl n : nat) : list nat :=
  let h (a : list nat) k := nth (pl + k - 1) a O in
  let a :=
    fold_left (fun a l => sift_down n a pl n (h a l) l (l + l))
              (rev (seq 1 (n / 2))) a in
  fold_left (fun a m =>
               let tmp := h a m in
               let a := upd a (pl + m - 1) (h a 1%nat) in
               sift_down n a pl (m - 1) tmp 1 2)
            (rev (seq 2 (n - 1))) a.

(** The [while (1)] loop with its explicit stack of pending partitions
    and their depth budgets. *)
Fixpoint aquicksort_loop (fuel : nat) (a : list nat) (pl pr : nat)
    (cdepth : Z) (heap : bool) (stack : list (nat * nat * Z))
  : option (list nat) :=
  match fuel with
  | O => None
  | S fuel' =>
      if heap && (cdepth <? 0)%Z then
        let a := aheapsort a pl (pr - pl + 1) in
        match stack with
        | [] => Some a
        | (pl', pr', d) :: stack' => aquicksort_loop fuel' a pl' pr' d true stack'
        end
      else if (SMALL_QUICKSORT <? pr - pl)%nat then
        let '(a, pi) := partition a pl pr in
        let cdepth := (cdepth - 1)%Z in
        if (pi - pl <? pr - pi)%nat
        then aquicksort_loop fuel' a pl (pi - 1) cdepth false
                             ((S pi, pr, cdepth) :: stack)
        else aquicksort_loop fuel' a (S pi) pr cdepth false
                             ((pl, pi - 1, cdepth)%nat :: stack)
      else
        let a := insertion_sort a pl pr in
        match stack with
        | [] => Some a
        | (pl', pr', d) :: stack' => aquicksort_loop fuel' a pl' pr' d true stack'
        end
  end.

End Introsort.

(** [aquicksort_(v, tosort, num)] with [tosort] initialised to
    [0 .. num - 1], as [argsort] calls it.  The loop runs once per
    partition and once per partition left to the insertion sort, which
    [2 * num + 2] rounds cover. *)
Definition aquicksort (v : list Z) : option (list nat) :=
  let num := List.length v in
  aquicksort_loop v (2 * num + 2) (seq 0 num) 0 (num - 1)
                  (Z.of_nat (Nat.log2 num) * 2) true [].

(** The same as a total function, for use as the [argsort] of
    [sort_values]. *)
Definition argsort_quicksort (v : list Z) : list nat :=
  match aquicksort v with
  | Some a => a
  | None => []
  end.

(** *** A cell reader for plain decimal numerals

    The part of what [pd.to_numeric] reads that the examples use: an
    optional sign and digits for an integer, with a fraction for another
    number.  Any other text denotes no number here.  The float read from
    an integer is the one nearest to it, which is what pandas' parser
    returns for the integers of sixteen digits or fewer. *)

Definition digit (c : ascii) : option Z :=
  let n := nat_of_ascii c in
  if ((48 <=? n) && (n <=? 57))%nat then Some (Z.of_nat (n - 48)) else None.

(** Reads a run of digits: its value after [acc], how many there were, and
    the text left. *)
Fixpoint digits (s : string) (acc : Z) (k : nat) : Z * nat * string :=
  match s with
  | EmptyString => (acc, k, s)
  | String c s' =>
      match digit c with
      | Some d => digits s' (10 * acc + d)%Z (S k)
      | None => (acc, k, s)
      end
  end.

(** The number an unsigned numeral denotes, and whether it is written as
    an integer (digits only). *)
Definition unsigned_decimal (s : string) : option (Q * bool) :=
  let '(whole, kw, rest) := digits s 0%Z O in
  match rest with
  | EmptyString =>
      if (0 <? kw)%nat then Some (inject_Z whole, true) else None
  | String "." rest' =>
      let '(num, kf, rest'') := digits rest' whole O in
      match rest'' with
      | EmptyString =>
          if (0 <? kw + kf)%nat
          then Some (Qmake num (Z.to_pos (10 ^ Z.of_nat kf)), false)
          else None
      | _ => None
      end
  | _ => None
  end.

Definition decimal_to_numeric (s : string) : Pandas.numeral :=
  let '(negative, body) :=
    match s with
    | String "-" s' => (true, s')
    | String "+" s' => (false, s')
    | _ => (false, s)
    end in
  match unsigned_decimal body with
  | Some (q, integer) =>
      let signed := if negative then Qopp q else q in
      match Float64.round signed with
      | Float64.Finite x =>
          if integer then Pandas.Integer (Qnum signed) x
          else Pandas.Real (Float64.Finite x)
      | x => Pandas.Real x
      end
  | None => Pandas.Real Float64.NaN
  end.

End Numpy.

(** ** The vocabulary of the claims *)

Module Notions.

Import Float64 Pandas App.

(** *** Loading *)

(** The employee-row test of line 39. *)
Definition is_employee (cols : list string) (r : list string) : bool :=
  startswith "E" (cell cols "employee_id" r).

(** The compensation cell denotes a number: [pd.to_numeric] does not
    coerce it to [NaN]. *)
Definition is_priced (floatify : string -> numeral)
    (cols : list string) (r : list string) : bool :=
  negb (isnan (to_float (floatify (cell cols "comp_usd" r)))).

(** Both tests of the loader. *)
Definition kept (floatify : string -> numeral)
    (cols : list string) (r : list string) : bool :=
  is_employee cols r && is_priced floatify cols r.

(** The [int64] a finite float is cast to. *)
Definition as_int (x : float64) : Z :=
  match x with Finite q => to_int64 q | _ => 0%Z end.

(** The [comp_usd] column of a file, as line 37 converts it. *)
Definition comp_usd_column (floatify : string -> numeral) (df : RawFrame)
  : Series :=
  to_numeric floatify (map (cell (raw_columns df) "comp_usd") (raw_records df)).

(** The [int64] that lines 37 to 42 make of a cell of that column: the
    integer of the cell in a column of integers, the float read from the
    cell and cast in a column of floats. *)
Definition stored (floatify : string -> numeral) (df : RawFrame)
    (s : string) : Z :=
  match comp_usd_column floatify df with
  | Int64Series _ => integer_of (floatify s)
  | UInt64Series _ => wrap64 (integer_of (floatify s))
  | Float64Series _ => as_int (to_float (floatify s))
  end.

(** An [int64]. *)
Definition is_int64 (z : Z) : Prop := (- 2 ^ 63 <= z < 2 ^ 63)%Z.

(** The cell is no integer literal, or one that is an [int64] and that the
    float read from it holds exactly. *)
Definition reads_exactly (n : numeral) : Prop :=
  forall z x, n = Integer z x -> x == inject_Z z /\ is_int64 z.

(** *** The page *)

(** The calls that show something computed from the roster. *)
Definition shows_roster (c : st_call) : bool :=
  match c with
  | st_set_page_config | st_markdown _ | st_error _ => false
  | _ => true
  end.

(** The calls that show an error. *)
Definition is_error (c : st_call) : bool :=
  match c with st_error _ => true | _ => false end.


(** *** Sorting *)

(** [v[i]]. *)
Definition key_at (v : list Z) (i : nat) : Z := nth i v 0%Z.

(** The row is paid [c]. *)
Definition has_comp (c : Z) (r : row Z) : bool := (comp_usd r =? c)%Z.

(** The rows of the selection with a given compensation are the first rows
    of the roster with that compensation, in the order of the roster. *)
Definition keeps_roster_order (roster selection : list (row Z)) : Prop :=
  forall c, exists rest,
    filter (has_comp c) roster = filter (has_comp c) selection ++ rest.

(** No other row of the roster is paid what [r] is paid. *)
Definition unrivalled (roster : list (row Z)) (r : row Z) : Prop :=
  forall r', In r' roster -> comp_usd r' = comp_usd r -> r' = r.

(** Two selections from a roster that differ at most in the order of
    equally paid rows: position by position they hold the same pay, and
    the same row where no other row of the roster is paid the same. *)
Definition same_up_to_ties (roster s1 s2 : list (row Z)) : Prop :=
  Forall2 (fun r1 r2 =>
             comp_usd r1 = comp_usd r2 /\ (unrivalled roster r1 -> r1 = r2))
          s1 s2.

(** [i] comes before [j] when [v] is sorted and equal values keep their
    order. *)
Definition before (v : list Z) (i j : nat) : Prop :=
  (key_at v i < key_at v j)%Z \/ (key_at v i = key_at v j /\ (i < j)%nat).

(** Pairs of a value and its position, ordered by value and then by
    position. *)
Definition lex (p q : Z * nat) : Prop :=
  (fst p < fst q)%Z \/ (fst p = fst q /\ (snd p < snd q)%nat).

(** *** Rounding *)

(** [2 ^ e <= n / d], written without division. *)
Definition at_least (n d : Z) (e : Z) : Prop :=
  d * pow2 e <= n * pow2 (- e).

(** The exponent of the last place and the significand that [round_pos]
    works with. *)
Definition ulp_exponent (n d : positive) : Z :=
  Z.max (ilog2 n d) (- 1022) - 52.

Definition significand (n d : positive) : Z :=
  half_even (Zpos n * pow2 (- ulp_exponent n d))
            (Zpos d * pow2 (ulp_exponent n d)).

(** The float [x] is the integer [z]. *)
Definition holds (x : float64) (z : Z) : Prop :=
  exists q, x = Finite q /\ Qnum q = z * Zpos (Qden q).

(** *** Statistics *)

(** The exact sum of a column, and the sum of its absolute values. *)
Definition exact_sum (l : list Z) : Z := fold_right Z.add 0 l.

Definition abs_sum (l : list Z) : Z :=
  fold_right (fun x acc => Z.abs x + acc) 0 l.

(** The median as the spec words it: the middle value of the ordered
    values for an odd count, the mean of the two middle values for an even
    count, truncated to an integer. *)
Definition conventional_median (l : list Z) : Z :=
  let s := sorted Z.leb l in
  let n := List.length s in
  if Nat.odd n then nth (n / 2) s 0
  else Z.quot (nth (n / 2 - 1) s 0 + nth (n / 2) s 0) 2.

(** *** Choosing rows *)

(** The rows [chosen] are rows of the roster, none taken twice. *)
Definition chosen_from (chosen roster : list (row Z)) : Prop :=
  exists rest, Permutation (chosen ++ rest) roster.

(** The pay of the rows, added up exactly. *)
Definition payroll (rs : list (row Z)) : Z := exact_sum (map comp_usd rs).

(** The middle of a list as it stands: its middle value for an odd
    length, the mean of its two middle values, truncated toward zero, for
    an even one. *)
Definition middle (l : list Z) : Z :=
  let n := List.length l in
  if Nat.odd n then nth (n / 2) l 0
  else Z.quot (nth (n / 2 - 1) l 0 + nth (n / 2) l 0) 2.

(** *** Text *)

Definition is_digit (c : ascii) : bool :=
  ((48 <=? nat_of_ascii c) && (nat_of_ascii c <=? 57))%nat.

Definition is_comma (c : ascii) : bool := Ascii.eqb c ",".

(** The text with its commas taken out. *)
Definition without_commas (s : string) : string :=
  string_of_list_ascii
    (filter (fun c => negb (is_comma c)) (list_ascii_of_string s)).

(** The sign Python writes in front of the digits. *)
Definition sign_text (x : Z) : string :=
  if (x <? 0)%Z then "-"%string else EmptyString.

End Notions.

(** ** Rosters and files to run the script on *)

Module Examples.

Import Pandas App.

(** The three lines of the example of C8. *)
Definition example_frame : RawFrame :=
  {| raw_columns := ["employee_id"; "comp_usd"]%string;
     raw_records := [ ["E1"; "100"]; ["TOTAL"; "100"]; ["E2"; "abc"] ]%string |}.

(** A roster file with an employee in debt to the company. *)
Definition overdrawn : RawFrame :=
  {| raw_columns := ["employee_id"; "comp_usd"]%string;
     raw_records := [ ["E7"; "-5"] ]%string |}.

(** A file that holds only its footer. *)
Definition footer_only : RawFrame :=
  {| raw_columns := ["employee_id"; "name"; "comp_usd"]%string;
     raw_records := [ ["Summary Statistics"; EmptyString; EmptyString];
                      ["TOTAL"; EmptyString; "180000"];
                      ["E9"; "Ghost"; "n/a"] ]%string |}.

(** A file whose pay column goes by another name. *)
Definition no_compensation : RawFrame :=
  {| raw_columns := ["employee_id"; "name"; "salary"]%string;
     raw_records := [ ["E1"; "Ada"; "100"] ]%string |}.

(** A roster row with its identifier and its pay. *)
Definition employee (id : string) (comp : Z) : row Z :=
  {| cells := [id]; comp_usd := comp |}.

(** Five employees, two pairs of them on the same pay. *)
Definition staff : list (row Z) :=
  [ employee "E1" 70000; employee "E2" 50000; employee "E3" 70000;
    employee "E4" 50000; employee "E5" 90000 ].

(** Twenty employees on the same pay. *)
Definition tied_roster : list (row Z) :=
  map (fun id => employee id 50000)
      [ "E01"; "E02"; "E03"; "E04"; "E05"; "E06"; "E07"; "E08"; "E09"; "E10";
        "E11"; "E12"; "E13"; "E14"; "E15"; "E16"; "E17"; "E18"; "E19"; "E20"
      ]%string.

(** The roster of the spec's scenario and its three lowest paid. *)
Definition five_employees : list (row Z) :=
  [ employee "E1" 50000; employee "E2" 60000; employee "E3" 70000;
    employee "E4" 80000; employee "E5" 90000 ].

Definition three_lowest : list (row Z) :=
  [ employee "E1" 50000; employee "E2" 60000;
    employee "E3" 70000 ].

(** One employee paid one dollar more than [2 ^ 53]. *)
Definition past_53_bits : list (row Z) :=
  [ employee "E1" 9007199254740993 ].

(** A cell reader that also reads [inf], as [pd.to_numeric] does. *)
Definition with_infinity (s : string) : numeral :=
  if String.eqb s "inf" then Real (Float64.Inf false)
  else Numpy.decimal_to_numeric s.

(** A file in which one employee has an infinite pay. *)
Definition boundless : RawFrame :=
  {| raw_columns := ["employee_id"; "comp_usd"]%string;
     raw_records := [ ["E1"; "100"]; ["E2"; "inf"] ]%string |}.

(** A file whose identifier column goes by another name. *)
Definition no_identifier : RawFrame :=
  {| raw_columns := ["id"; "name"; "comp_usd"]%string;
     raw_records := [ ["E1"; "Ada"; "100"] ]%string |}.

(** Two employees, and the summary lines some exports end with. *)
Definition two_employees : list (list string) :=
  [ ["E1"; "100"]; ["E2"; "250"] ]%string.

Definition summary_lines : list (list string) :=
  [ ["Summary Statistics"; EmptyString]; ["TOTAL"; "350"];
    ["inf"; "inf"] ]%string.

(** A file with the six columns the table shows, and one without the
    names. *)
Definition full_file : RawFrame :=
  {| raw_columns := ["employee_id"; "name"; "role"; "department";
                     "location"; "comp_usd"]%string;
     raw_records := [ ["E1"; "Ada"; "Engineer"; "R&D"; "Boston"; "70000"];
                      ["E2"; "Bo"; "Analyst"; "Finance"; "Austin"; "50000"];
                      ["TOTAL"; EmptyString; EmptyString; EmptyString;
                       EmptyString; "120000"] ]%string |}.

(** An export of a frame whose index had been reset twice: it has the six
    columns and the columns [index] and [level_0] as well. *)
Definition reexported_file : RawFrame :=
  {| raw_columns := ["level_0"; "index"; "employee_id"; "name"; "role";
                     "department"; "location"; "comp_usd"]%string;
     raw_records := [ ["0"; "0"; "E1"; "Ada"; "Engineer"; "R&D"; "Boston";
                       "70000"];
                      ["1"; "1"; "E2"; "Bo"; "Analyst"; "Finance"; "Austin";
                       "50000"] ]%string |}.

Definition nameless_file : RawFrame :=
  {| raw_columns := ["employee_id"; "comp_usd"]%string;
     raw_records := two_employees |}.

(** The slider at one row, lowest first; and at no row. *)
Definition one_lowest : Inputs :=
  {| target_headcount := 1;
     priority_option := "Lowest compensation first (cost-minimizing)";
     accent_choice := "Teal" |}.


(** A sort that keeps numpy's promise and returns positions of equal
    values last first. *)
Definition lt_keyed (a b : Z * nat) : bool := (fst a <? fst b)%Z.

Definition argsort_reversing (v : list Z) : list nat :=
  map snd (Pandas.sorted lt_keyed (combine v (seq 0 (List.length v)))).

End Examples.

(** ** The loader *)

Module LoaderFacts.

Import Float64 Pandas App Notions Examples.

Local Open Scope string_scope.

Lemma filter_filter {A : Type} (f g : A -> bool) (l : list A) :
  filter g (filter f l) = filter (fun x => f x && g x) l.
Proof.
  induction l as [|x l IH]; simpl; [reflexivity|].
  destruct (f x); simpl; [destruct (g x)|]; rewrite IH; reflexivity.
Qed.

Lemma filter_map_comm {A B : Type} (f : A -> B) (p : B -> bool) (l : list A) :
  filter p (map f l) = map f (filter (fun x => p (f x)) l).
Proof.
  induction l as [|x l IH]; simpl; [reflexivity|].
  destruct (p (f x)); simpl; rewrite IH; reflexivity.
Qed.

Lemma forallb_map_comm {A B : Type} (f : A -> B) (p : B -> bool) (l : list A) :
  forallb p (map f l) = forallb (fun x => p (f x)) l.
Proof.
  induction l as [|x l IH]; simpl; [reflexivity|]. rewrite IH. reflexivity.
Qed.

Lemma filter_agree {A : Type} (f g : A -> bool) (l : list A) :
  Forall (fun x => f x = g x) l -> filter f l = filter g l.
Proof.
  induction 1 as [|x l Hx _ IH]; simpl; [reflexivity|].
  rewrite Hx, IH. reflexivity.
Qed.

Lemma existsb_false {A : Type} (p : A -> bool) (l : list A) :
  existsb p l = false -> Forall (fun x => p x = false) l.
Proof.
  induction l as [|x l IH]; simpl; [constructor|].
  intros H. apply orb_false_iff in H. destruct H as [Hx Hl].
  constructor; auto.
Qed.

Lemma assign_map {C : Type} (f : list string -> C) (records : list (list string)) :
  assign records (map f records)
  = map (fun r => {| cells := r; comp_usd := f r |}) records.
Proof.
  unfold assign. induction records as [|r l IH]; simpl; [reflexivity|].
  rewrite IH. reflexivity.
Qed.

Lemma wrap64_is_int64 (z : Z) : is_int64 (wrap64 z).
Proof.
  unfold is_int64, wrap64.
  pose proof (Z.mod_pos_bound (z + 2 ^ 63) (2 ^ 64) ltac:(lia)). lia.
Qed.

Lemma to_int64_is_int64 (q : Q) : is_int64 (to_int64 q).
Proof.
  unfold is_int64, to_int64.
  destruct (Z.leb_spec (- 2 ^ 63) (trunc q)), (Z.ltb_spec (trunc q) (2 ^ 63));
    simpl; lia.
Qed.

Lemma to_int64_in_range (q : Q) : is_int64 (trunc q) -> to_int64 q = trunc q.
Proof.
  unfold is_int64, to_int64. intros H.
  destruct (Z.leb_spec (- 2 ^ 63) (trunc q)), (Z.ltb_spec (trunc q) (2 ^ 63));
    simpl; lia.
Qed.

Section WithParser.

Variable floatify : string -> numeral.

(** What line 37 returns, by dtype: a column of integers holds the integer
    of every cell, and every cell is an integer literal within the dtype;
    a column of floats holds the float read from every cell. *)
Lemma to_numeric_cases (values : list string) :
  match to_numeric floatify values with
  | Int64Series v =>
      v = map (fun s => integer_of (floatify s)) values
      /\ Forall (fun s => exists z x, floatify s = Integer z x
                                      /\ (- 2 ^ 63 <= z < 2 ^ 63)%Z) values
  | UInt64Series v =>
      v = map (fun s => integer_of (floatify s)) values
      /\ Forall (fun s => exists z x, floatify s = Integer z x
                                      /\ (0 <= z < 2 ^ 64)%Z) values
  | Float64Series v => v = map (fun s => to_float (floatify s)) values
  end.
Proof.
  unfold to_numeric. cbv zeta.
  destruct (existsb (fun n => negb (is_integer n)) (map floatify values))
    eqn:Efloat; cbn [orb]; [apply map_map|].
  apply existsb_false in Efloat. rewrite Forall_map in Efloat.
  destruct (existsb (fun n => (2 ^ 63 <=? integer_of n)%Z) (map floatify values))
    eqn:Euint; cbn [andb].
  - destruct (existsb (fun n => (integer_of n <? 0)%Z) (map floatify values))
      eqn:Esint; [apply map_map|].
    apply existsb_false in Esint. rewrite Forall_map in Esint.
    split; [apply map_map|].
    rewrite Forall_forall in *. intros s Hs.
    specialize (Efloat s Hs). specialize (Esint s Hs).
    destruct (floatify s) as [z x|x]; cbn [is_integer integer_of negb] in *;
      [|discriminate].
    exists z, x. split; [reflexivity|].
    apply negb_false_iff, andb_true_iff in Efloat. lia.
  - apply existsb_false in Euint. rewrite Forall_map in Euint.
    split; [apply map_map|].
    rewrite Forall_forall in *. intros s Hs.
    specialize (Efloat s Hs). specialize (Euint s Hs).
    destruct (floatify s) as [z x|x]; cbn [is_integer integer_of negb] in *;
      [|discriminate].
    exists z, x. split; [reflexivity|].
    apply negb_false_iff, andb_true_iff in Efloat. lia.
Qed.

(** In a column of integers every line passes the compensation test, and
    no value is infinite. *)
Lemma integers_are_priced (df : RawFrame) :
  Forall (fun s => exists z x, floatify s = Integer z x)
         (map (cell (raw_columns df) "comp_usd") (raw_records df)) ->
  Forall (fun r => is_priced floatify (raw_columns df) r = true
                   /\ isfinite (to_float (floatify
                        (cell (raw_columns df) "comp_usd" r))) = true)
         (raw_records df).
Proof.
  rewrite Forall_map. apply Forall_impl.
  intros r (z & x & E). unfold is_priced. rewrite E. split; reflexivity.
Qed.

(** With both columns in the file, the load is decided by the lines that
    pass both tests. *)
Lemma load_roster_both_columns (df : RawFrame) :
  has_column "comp_usd" (raw_columns df) = true ->
  has_column "employee_id" (raw_columns df) = true ->
  load_roster floatify (Ok df)
  = if forallb (fun r => isfinite (to_float (floatify
                            (cell (raw_columns df) "comp_usd" r))))
               (filter (kept floatify (raw_columns df)) (raw_records df))
    then Ok {| columns := raw_columns df;
               rows := map (fun r =>
                              {| cells := r;
                                 comp_usd := stored floatify df
                                   (cell (raw_columns df) "comp_usd" r) |})
                           (filter (kept floatify (raw_columns df))
                                   (raw_records df)) |}
    else Raise (IntCastingNaNError
                  "Cannot convert non-finite values (NA or inf) to integer").
Proof.
  intros Hcomp Hid. unfold load_roster; simpl. rewrite Hcomp, Hid; simpl.
  unfold stored, comp_usd_column.
  pose proof (to_numeric_cases
                (map (cell (raw_columns df) "comp_usd") (raw_records df)))
    as Hcases.
  set (cols := raw_columns df) in *.
  destruct (to_numeric floatify (map (cell cols "comp_usd") (raw_records df)))
    as [v|v|v].
  - destruct Hcases as [-> Hint].
    assert (Hall : Forall (fun s => exists z x, floatify s = Integer z x)
                     (map (cell cols "comp_usd") (raw_records df))).
    { revert Hint. apply Forall_impl. intros s (z & x & E & _). eauto. }
    apply integers_are_priced in Hall. fold cols in Hall.
    rewrite map_map, assign_map, filter_map_comm. simpl.
    replace (filter (kept floatify cols) (raw_records df))
      with (filter (is_employee cols) (raw_records df)).
    + replace (forallb _ _) with true; [reflexivity|].
      symmetry. apply forallb_forall. intros r Hr. apply filter_In in Hr.
      rewrite Forall_forall in Hall. apply (Hall r), Hr.
    + apply filter_agree. revert Hall. apply Forall_impl.
      intros r [Hp _]. unfold kept. rewrite Hp, andb_true_r. reflexivity.
  - destruct Hcases as [-> Hint].
    assert (Hall : Forall (fun s => exists z x, floatify s = Integer z x)
                     (map (cell cols "comp_usd") (raw_records df))).
    { revert Hint. apply Forall_impl. intros s (z & x & E & _). eauto. }
    apply integers_are_priced in Hall. fold cols in Hall.
    unfold uint64_astype_int.
    rewrite map_map, assign_map, filter_map_comm, map_map. simpl.
    replace (filter (kept floatify cols) (raw_records df))
      with (filter (is_employee cols) (raw_records df)).
    + replace (forallb _ _) with true; [reflexivity|].
      symmetry. apply forallb_forall. intros r Hr. apply filter_In in Hr.
      rewrite Forall_forall in Hall. apply (Hall r), Hr.
    + apply filter_agree. revert Hall. apply Forall_impl.
      intros r [Hp _]. unfold kept. rewrite Hp, andb_true_r. reflexivity.
  - subst v. unfold astype_int, dropna.
    rewrite map_map, assign_map, !filter_map_comm, filter_filter.
    rewrite forallb_map_comm, map_map. simpl.
    fold (kept floatify cols).
    destruct (forallb _ _); reflexivity.
Qed.

(** What a successful load returns: the records that pass both tests, in
    the order of the file, each with the [int64] made of its cell. *)
Lemma load_roster_ok (df : RawFrame) (roster : DataFrame Z) :
  load_roster floatify (Ok df) = Ok roster ->
  columns roster = raw_columns df
  /\ rows roster =
     map (fun r => {| cells := r;
                      comp_usd := stored floatify df
                                    (cell (raw_columns df) "comp_usd" r) |})
         (filter (kept floatify (raw_columns df)) (raw_records df))
  /\ Forall (fun r => isfinite (to_float (floatify
                        (cell (raw_columns df) "comp_usd" r))) = true)
            (filter (kept floatify (raw_columns df)) (raw_records df)).
Proof.
  intros Hload.
  destruct (has_column "comp_usd" (raw_columns df)) eqn:Hcomp;
    [|unfold load_roster in Hload; simpl in Hload; rewrite Hcomp in Hload;
      discriminate].
  destruct (has_column "employee_id" (raw_columns df)) eqn:Hid;
    [|unfold load_roster in Hload; simpl in Hload;
      rewrite Hcomp, Hid in Hload; discriminate].
  rewrite (load_roster_both_columns df Hcomp Hid) in Hload.
  destruct (forallb _ _) eqn:E; [|discriminate].
  injection Hload as <-. simpl. repeat split.
  apply Forall_forall. intros r Hr.
  rewrite forallb_forall in E. apply E, Hr.
Qed.

Lemma trunc_of_integer (q : Q) (z : Z) : q == inject_Z z -> trunc q = z.
Proof.
  unfold Qeq, trunc; simpl. intros H.
  rewrite Z.mul_1_r in H. rewrite H. apply Z.quot_mul. discriminate.
Qed.

(** The [int64] stored for a cell of the column that reads as a finite
    number. *)
Lemma stored_spec (df : RawFrame) (line : list string) (q : Q) :
  In line (raw_records df) ->
  to_float (floatify (cell (raw_columns df) "comp_usd" line)) = Finite q ->
  let s := cell (raw_columns df) "comp_usd" line in
  is_int64 (stored floatify df s)
  /\ match comp_usd_column floatify df with
     | Int64Series _ => exists x, floatify s = Integer (stored floatify df s) x
     | UInt64Series _ =>
         exists z x, floatify s = Integer z x
                     /\ stored floatify df s = wrap64 z
     | Float64Series _ =>
         is_int64 (trunc q) -> stored floatify df s = trunc q
     end.
Proof.
  intros Hin Hq s. unfold stored, comp_usd_column.
  pose proof (to_numeric_cases
                (map (cell (raw_columns df) "comp_usd") (raw_records df)))
    as Hcases.
  assert (Hs : In s (map (cell (raw_columns df) "comp_usd") (raw_records df)))
    by (apply in_map, Hin).
  destruct (to_numeric floatify _) as [v|v|v].
  - destruct Hcases as [_ Hint]. rewrite Forall_forall in Hint.
    destruct (Hint s Hs) as (z & x & E & Hz). rewrite E. simpl.
    split; [exact Hz|]. exists x. reflexivity.
  - destruct Hcases as [_ Hint]. rewrite Forall_forall in Hint.
    destruct (Hint s Hs) as (z & x & E & Hz). rewrite E. simpl.
    split; [apply wrap64_is_int64|]. exists z, x. split; reflexivity.
  - fold s in Hq. rewrite Hq. simpl.
    split; [apply to_int64_is_int64|apply to_int64_in_range].
Qed.

(** C2, as the code has it: every record of the roster that [load_roster]
    returns comes from a line of the file whose [employee_id] starts with
    E and whose [comp_usd] cell reads as a finite number, whatever its
    sign, and holds an [int64]: the integer of the cell when the whole
    column of the file is [int64], that integer wrapped around when the
    column is [uint64], and in a [float64] column the float read from the
    cell truncated toward zero, when that is an [int64].  A line that fails
    either test is in no record of the roster. *)
Theorem load_roster_invariant (df : RawFrame) (roster : DataFrame Z) :
  load_roster floatify (Ok df) = Ok roster ->
  (forall r, In r (rows roster) ->
     In (cells r) (raw_records df)
     /\ is_employee (raw_columns df) (cells r) = true
     /\ is_int64 (comp_usd r)
     /\ exists q,
          to_float (floatify (cell (raw_columns df) "comp_usd" (cells r)))
          = Finite q
          /\ match comp_usd_column floatify df with
             | Int64Series _ =>
                 exists x,
                   floatify (cell (raw_columns df) "comp_usd" (cells r))
                   = Integer (comp_usd r) x
             | UInt64Series _ =>
                 exists z x,
                   floatify (cell (raw_columns df) "comp_usd" (cells r))
                   = Integer z x
                   /\ comp_usd r = wrap64 z
             | Float64Series _ =>
                 is_int64 (trunc q) -> comp_usd r = trunc q
             end)
  /\ (forall line, In line (raw_records df) ->
        is_employee (raw_columns df) line = false
        \/ is_priced floatify (raw_columns df) line = false ->
        forall r, In r (rows roster) -> cells r <> line).
Proof.
  intros Hload. apply load_roster_ok in Hload.
  destruct Hload as (_ & Hrows & Hfin).
  assert (Hkept : forall r, In r (rows roster) ->
            In (cells r) (raw_records df)
            /\ kept floatify (raw_columns df) (cells r) = true
            /\ comp_usd r
               = stored floatify df
                   (cell (raw_columns df) "comp_usd" (cells r))
            /\ exists q,
                 to_float (floatify
                   (cell (raw_columns df) "comp_usd" (cells r))) = Finite q).
  { intros r Hr. rewrite Hrows in Hr. apply in_map_iff in Hr.
    destruct Hr as (line & <- & Hline). simpl.
    rewrite Forall_forall in Hfin. specialize (Hfin _ Hline).
    apply filter_In in Hline. destruct Hline as [Hin Hk].
    repeat split; try assumption.
    destruct (to_float _) as [| |q]; try discriminate.
    exists q. reflexivity. }
  split.
  - intros r Hr. destruct (Hkept r Hr) as (Hin & Hk & Hstored & q & Hq).
    unfold kept in Hk. apply andb_true_iff in Hk.
    destruct (stored_spec df (cells r) q Hin Hq) as [Hrange Hvalue].
    rewrite <- Hstored in Hrange, Hvalue.
    split; [exact Hin|]. split; [tauto|]. split; [exact Hrange|].
    exists q. split; [exact Hq|exact Hvalue].
  - intros line _ Hbad r Hr Heq.
    destruct (Hkept r Hr) as (_ & Hk & _). rewrite Heq in Hk.
    unfold kept in Hk. apply andb_true_iff in Hk.
    destruct Hbad as [Hb|Hb]; rewrite Hb in Hk; destruct Hk; discriminate.
Qed.

(** C8: the roster holds exactly the lines of the file whose identifier
    starts with E and whose compensation cell denotes a number, in their
    order; so every line whose identifier does not start with E and every
    line whose compensation is not a number is left out.  From the lines
    E1/100, TOTAL/100 and E2/abc, with 100 read as the number 100 and abc
    as no number, only E1 with 100 is kept. *)
Theorem load_roster_excludes_invalid_rows :
  (forall df roster,
     load_roster floatify (Ok df) = Ok roster ->
     map cells (rows roster)
     = filter (kept floatify (raw_columns df)) (raw_records df)
     /\ forall line,
          is_employee (raw_columns df) line = false
          \/ is_priced floatify (raw_columns df) line = false ->
          ~ In line (map cells (rows roster)))
  /\ ((exists q, to_float (floatify "100") = Finite q /\ q == 100) ->
      to_float (floatify "abc") = NaN ->
      load_roster floatify (Ok example_frame)
      = Ok {| columns := ["employee_id"; "comp_usd"];
              rows := [ {| cells := ["E1"; "100"]; comp_usd := 100%Z |} ] |}).
Proof.
  split.
  - intros df roster Hload. apply load_roster_ok in Hload.
    destruct Hload as (_ & Hrows & _).
    assert (Hcells : map cells (rows roster)
                     = filter (kept floatify (raw_columns df)) (raw_records df)).
    { rewrite Hrows, map_map. simpl. apply map_id. }
    split; [exact Hcells|].
    intros line Hbad Hin. rewrite Hcells in Hin.
    apply filter_In in Hin. destruct Hin as [_ Hk].
    unfold kept in Hk. apply andb_true_iff in Hk.
    destruct Hbad as [Hb|Hb]; rewrite Hb in Hk; destruct Hk; discriminate.
  - intros (q & H100 & Hq) Habc.
    rewrite (load_roster_both_columns example_frame eq_refl eq_refl).
    assert (Hcolumn : exists v, comp_usd_column floatify example_frame
                                = Float64Series v).
    { unfold comp_usd_column, to_numeric. cbv zeta.
      replace (existsb (fun n => negb (is_integer n)) _) with true;
        [eexists; reflexivity|].
      simpl. unfold cell; simpl.
      destruct (floatify "abc"); [discriminate|].
      simpl. rewrite !orb_true_r. reflexivity. }
    destruct Hcolumn as [v Hcolumn].
    unfold stored. rewrite Hcolumn.
    unfold kept, is_priced, is_employee; simpl. unfold cell; simpl.
    rewrite H100, Habc.
    cbn [negb isnan andb filter forallb isfinite map as_int to_float nth].
    rewrite H100. cbn [isfinite andb as_int].
    rewrite to_int64_in_range; rewrite (trunc_of_integer q 100 Hq);
      [reflexivity|unfold is_int64; lia].
Qed.

(** C10: when the file has both columns and none of its lines passes
    both tests, [load_roster] returns the empty roster and raises
    nothing. *)
Theorem load_roster_empty_is_success (df : RawFrame) :
  has_column "comp_usd" (raw_columns df) = true ->
  has_column "employee_id" (raw_columns df) = true ->
  (forall line, In line (raw_records df) ->
     is_employee (raw_columns df) line = false
     \/ is_priced floatify (raw_columns df) line = false) ->
  load_roster floatify (Ok df)
  = Ok {| columns := raw_columns df; rows := [] |}.
Proof.
  intros Hcomp Hid Hnone.
  rewrite (load_roster_both_columns df Hcomp Hid).
  assert (Hempty : filter (kept floatify (raw_columns df)) (raw_records df)
                   = []).
  { induction (raw_records df) as [|x l IH]; [reflexivity|].
    simpl. unfold kept at 1.
    destruct (Hnone x (or_introl eq_refl)) as [Hb|Hb]; rewrite Hb;
      rewrite ?andb_false_r; apply IH; intros; apply Hnone; right; assumption. }
  rewrite Hempty. reflexivity.
Qed.

End WithParser.

(** C2 fails as stated: the line E7 with compensation -5 is kept, with a
    negative [comp_usd]. *)
Lemma load_roster_keeps_negative_compensation :
  load_roster Numpy.decimal_to_numeric (Ok overdrawn)
  = Ok {| columns := ["employee_id"; "comp_usd"];
          rows := [ {| cells := ["E7"; "-5"]; comp_usd := (-5)%Z |} ] |}
  /\ ~ (forall roster r,
          load_roster Numpy.decimal_to_numeric (Ok overdrawn) = Ok roster ->
          In r (rows roster) -> (0 <= comp_usd r)%Z).
Proof.
  assert (H : load_roster Numpy.decimal_to_numeric (Ok overdrawn)
              = Ok {| columns := ["employee_id"; "comp_usd"];
                      rows := [ {| cells := ["E7"; "-5"];
                                   comp_usd := (-5)%Z |} ] |})
    by (vm_compute; reflexivity).
  split; [exact H|].
  intros Hall. specialize (Hall _ _ H (or_introl eq_refl)).
  simpl in Hall. lia.
Qed.

Lemma load_roster_invariant_witness :
  In ["E7"; "-5"] (raw_records overdrawn)
  /\ is_employee (raw_columns overdrawn) ["E7"; "-5"] = true
  /\ is_int64 (-5)
  /\ exists q,
       to_float (Numpy.decimal_to_numeric "-5") = Finite q
       /\ exists x, Numpy.decimal_to_numeric "-5" = Integer (-5) x.
Proof.
  apply (proj1 (load_roster_invariant Numpy.decimal_to_numeric overdrawn
                  {| columns := ["employee_id"; "comp_usd"];
                     rows := [ {| cells := ["E7"; "-5"];
                                  comp_usd := (-5)%Z |} ] |}
                  eq_refl)
               {| cells := ["E7"; "-5"]; comp_usd := (-5)%Z |}
               (or_introl eq_refl)).
Defined.

Lemma load_roster_excludes_invalid_rows_witness :
  load_roster Numpy.decimal_to_numeric (Ok example_frame)
  = Ok {| columns := ["employee_id"; "comp_usd"];
          rows := [ {| cells := ["E1"; "100"]; comp_usd := 100%Z |} ] |}.
Proof.
  apply (proj2 (load_roster_excludes_invalid_rows Numpy.decimal_to_numeric)).
  - eexists. split; [vm_compute; reflexivity|]. vm_compute. reflexivity.
  - vm_compute. reflexivity.
Defined.

Lemma load_roster_empty_is_success_witness :
  load_roster Numpy.decimal_to_numeric (Ok footer_only)
  = Ok {| columns := ["employee_id"; "name"; "comp_usd"]; rows := [] |}.
Proof.
  apply (load_roster_empty_is_success Numpy.decimal_to_numeric footer_only).
  - reflexivity.
  - reflexivity.
  - intros line Hin. simpl in Hin.
    destruct Hin as [<-|[<-|[<-|[]]]]; vm_compute; auto.
Defined.

End LoaderFacts.

(** ** The page when the roster does not load *)

Module PageFacts.

Import Float64 Pandas App Notions Examples.

(** Whatever [load_roster] raises ends the run after one [st.error]. *)
Lemma run_load_failure floatify argsort csv ui exc :
  load_roster floatify csv = Raise exc ->
  run floatify argsort csv ui
  = (page_head ++ [st_error ("Could not load roster: " ++ str exc)%string],
     Stopped).
Proof. unfold run. intros ->. reflexivity. Qed.

(** C9: a file without the [comp_usd] column makes [load_roster] raise
    the error that names the column; the run then shows the page head and
    one error message carrying that text, stops there, and shows nothing
    computed from a roster. *)
Theorem missing_comp_usd_column_is_fatal floatify argsort df ui :
  has_column "comp_usd" (raw_columns df) = false ->
  load_roster floatify (Ok df)
  = Raise (RuntimeError "Expected column 'comp_usd' in roster CSV")
  /\ run floatify argsort (Ok df) ui
     = (page_head
        ++ [st_error
              "Could not load roster: Expected column 'comp_usd' in roster CSV"],
        Stopped)
  /\ List.length (filter is_error (fst (run floatify argsort (Ok df) ui))) = 1%nat
  /\ filter shows_roster (fst (run floatify argsort (Ok df) ui)) = [].
Proof.
  intros Hmissing.
  assert (Hload : load_roster floatify (Ok df)
                  = Raise (RuntimeError
                             "Expected column 'comp_usd' in roster CSV")).
  { unfold load_roster; simpl. rewrite Hmissing. reflexivity. }
  split; [exact Hload|].
  rewrite (run_load_failure _ argsort _ ui _ Hload).
  repeat split.
Qed.

Lemma missing_comp_usd_column_is_fatal_witness :
  run Numpy.decimal_to_numeric Numpy.argsort_stable (Ok no_compensation)
      {| target_headcount := 1%Z;
         priority_option := "Lowest compensation first (cost-minimizing)";
         accent_choice := "Teal" |}
  = (page_head
     ++ [st_error
           "Could not load roster: Expected column 'comp_usd' in roster CSV"],
     Stopped).
Proof.
  refine (proj1 (proj2 (missing_comp_usd_column_is_fatal Numpy.decimal_to_numeric
           Numpy.argsort_stable no_compensation _ _))).
  reflexivity.
Defined.

End PageFacts.

(** ** The selection *)

Module SelectionFacts.

Import Pandas App Notions.

(** *** Lists read by position *)

Lemma map_nth_seq {A : Type} (l : list A) (d : A) :
  map (fun i => nth i l d) (seq 0 (List.length l)) = l.
Proof.
  induction l as [|x l IH]; simpl; [reflexivity|].
  f_equal. rewrite <- seq_shift, map_map. exact IH.
Qed.

Lemma take_cons {A : Type} (i : nat) (idx : list nat) (l : list A) (x : A) :
  nth_error l i = Some x -> take (i :: idx) l = x :: take idx l.
Proof. unfold take; simpl. intros ->. reflexivity. Qed.

Lemma in_range_nth_error {A : Type} (l : list A) (i : nat) :
  (i < List.length l)%nat -> exists x, nth_error l i = Some x.
Proof.
  intros H. destruct (nth_error l i) eqn:E; [eauto|].
  apply nth_error_None in E. lia.
Qed.

Lemma map_take {A B : Type} (f : A -> B) (d : B) (idx : list nat) (l : list A) :
  Forall (fun i => (i < List.length l)%nat) idx ->
  map f (take idx l) = map (fun i => nth i (map f l) d) idx.
Proof.
  induction 1 as [|i idx Hi _ IH]; [reflexivity|].
  destruct (in_range_nth_error l i Hi) as [x Hx].
  rewrite (take_cons _ _ _ _ Hx). simpl. rewrite IH. f_equal.
  symmetry. apply nth_error_nth. apply map_nth_error. exact Hx.
Qed.

Lemma length_take {A : Type} (idx : list nat) (l : list A) :
  Forall (fun i => (i < List.length l)%nat) idx ->
  List.length (take idx l) = List.length idx.
Proof.
  intros H. rewrite <- (length_map (fun _ => tt) (take idx l)).
  rewrite (map_take _ tt _ _ H). apply length_map.
Qed.

Lemma take_seq {A : Type} (l : list A) : take (seq 0 (List.length l)) l = l.
Proof.
  assert (H : forall (pre : list A),
             take (seq (List.length pre) (List.length l)) (pre ++ l) = l).
  { induction l as [|x l IH]; intros pre; [reflexivity|].
    simpl seq. rewrite (take_cons _ _ _ x).
    - f_equal. specialize (IH (pre ++ [x])).
      rewrite length_app, <- app_assoc in IH. simpl in IH.
      rewrite Nat.add_1_r in IH. exact IH.
    - rewrite nth_error_app2, Nat.sub_diag by lia. reflexivity. }
  exact (H []).
Qed.

Lemma filter_take {A : Type} (p : A -> bool) (q : nat -> bool)
    (idx : list nat) (l : list A) :
  (forall i x, nth_error l i = Some x -> q i = p x) ->
  Forall (fun i => (i < List.length l)%nat) idx ->
  filter p (take idx l) = take (filter q idx) l.
Proof.
  intros Hpq. induction 1 as [|i idx Hi _ IH]; [reflexivity|].
  destruct (in_range_nth_error l i Hi) as [x Hx].
  rewrite (take_cons _ _ _ _ Hx). simpl.
  rewrite (Hpq _ _ Hx). destruct (p x).
  - rewrite (take_cons _ _ _ _ Hx), IH. reflexivity.
  - exact IH.
Qed.

Lemma head_is_firstn {A : Type} (n : Z) (l : list A) :
  exists k, head n l = firstn k l.
Proof. unfold head. destruct (0 <=? n)%Z; eauto. Qed.

Lemma head_map {A B : Type} (f : A -> B) (n : Z) (l : list A) :
  map f (head n l) = head n (map f l).
Proof.
  unfold head. rewrite length_map.
  destruct (0 <=? n)%Z; symmetry; apply firstn_map.
Qed.

(** *** Orders along a list *)

Lemma StronglySorted_snoc {A : Type} (R : A -> A -> Prop) (l : list A) (x : A) :
  StronglySorted R l -> Forall (fun y => R y x) l -> StronglySorted R (l ++ [x]).
Proof.
  induction 1 as [|y l Hl IH Hy]; intros Hx; simpl.
  - constructor; constructor.
  - inversion Hx; subst. constructor.
    + apply IH. assumption.
    + apply Forall_app. split; [assumption|]. constructor; [assumption|constructor].
Qed.

Lemma StronglySorted_rev {A : Type} (R : A -> A -> Prop) (l : list A) :
  StronglySorted R l -> StronglySorted (fun x y => R y x) (rev l).
Proof.
  induction 1 as [|y l Hl IH Hy]; simpl; [constructor|].
  apply StronglySorted_snoc; [exact IH|].
  apply Forall_rev. exact Hy.
Qed.

Lemma StronglySorted_map {A B : Type} (R : B -> B -> Prop) (f : A -> B) (l : list A) :
  StronglySorted (fun x y => R (f x) (f y)) l <-> StronglySorted R (map f l).
Proof.
  induction l as [|x l IH]; simpl.
  - split; constructor.
  - split; intros H; inversion H; subst; constructor;
      try (apply IH; assumption).
    + apply Forall_map. assumption.
    + rewrite Forall_map in *. assumption.
Qed.

Lemma StronglySorted_weaken {A : Type} (R S : A -> A -> Prop) (l : list A) :
  (forall x y, In x l -> In y l -> R x y -> S x y) ->
  StronglySorted R l -> StronglySorted S l.
Proof.
  intros HRS H. induction H as [|x l Hl IH Hx]; constructor.
  - apply IH. intros; apply HRS; simpl; auto.
  - rewrite Forall_forall in *. intros y Hy. apply HRS; simpl; auto.
Qed.

Lemma StronglySorted_firstn {A : Type} (R : A -> A -> Prop) (k : nat) (l : list A) :
  StronglySorted R l -> StronglySorted R (firstn k l).
Proof.
  intros H. revert k. induction H as [|x l Hl IH Hx]; intros [|k]; simpl;
    try constructor.
  - apply IH.
  - rewrite Forall_forall in *. intros y Hy. apply Hx.
    rewrite <- (firstn_skipn k l). apply in_or_app. left. exact Hy.
Qed.

Lemma StronglySorted_filter {A : Type} (R : A -> A -> Prop) (p : A -> bool) (l : list A) :
  StronglySorted R l -> StronglySorted R (filter p l).
Proof.
  induction 1 as [|x l Hl IH Hx]; simpl; [constructor|].
  destruct (p x); [|exact IH]. constructor; [exact IH|].
  rewrite Forall_forall in *. intros y Hy. apply Hx.
  apply filter_In in Hy. tauto.
Qed.

(** Two increasing lists with the same elements are the same list. *)
Lemma increasing_unique (l1 l2 : list nat) :
  StronglySorted lt l1 -> StronglySorted lt l2 ->
  (forall i, In i l1 <-> In i l2) -> l1 = l2.
Proof.
  intros H1. revert l2. induction H1 as [|x l1 Hl1 IH Hx]; intros l2 H2 Hsame.
  - destruct l2 as [|y l2]; [reflexivity|].
    exfalso. apply (proj2 (Hsame y)). left. reflexivity.
  - destruct H2 as [|y l2 Hl2 Hy].
    + exfalso. apply (proj1 (Hsame x)). left. reflexivity.
    + rewrite Forall_forall in Hx, Hy.
      assert (x = y).
      { destruct (proj1 (Hsame x) (or_introl eq_refl)) as [E|Hin]; [auto|].
        destruct (proj2 (Hsame y) (or_introl eq_refl)) as [E|Hin']; [auto|].
        specialize (Hx _ Hin'). specialize (Hy _ Hin). lia. }
      subst y. f_equal. apply IH; [exact Hl2|].
      intros i. split; intros Hi.
      * destruct (proj1 (Hsame i) (or_intror Hi)) as [E|Hin]; [|exact Hin].
        subst i. specialize (Hx _ Hi). lia.
      * destruct (proj2 (Hsame i) (or_intror Hi)) as [E|Hin]; [|exact Hin].
        subst i. specialize (Hy _ Hi). lia.
Qed.

Lemma seq_increasing (start len : nat) : StronglySorted lt (seq start len).
Proof.
  revert start. induction len as [|len IH]; intros start; simpl; constructor.
  - apply IH.
  - apply Forall_forall. intros i Hi. apply in_seq in Hi. lia.
Qed.

(** *** What the claims say of a selection *)

Section DefaultSort.

Variable argsort : list Z -> list nat.

(** numpy: [argsort] returns the positions of the array, each once. *)
Hypothesis argsort_perm :
  forall v, Permutation (argsort v) (seq 0 (List.length v)).

(** numpy: read in that order, the array is sorted. *)
Hypothesis argsort_sorted :
  forall v, Sorted Z.le (map (key_at v) (argsort v)).

Lemma perm_in_range (idx : list nat) (n : nat) :
  Permutation idx (seq 0 n) -> Forall (fun i => (i < n)%nat) idx.
Proof.
  intros H. apply Forall_forall. intros i Hi.
  apply (Permutation_in _ H), in_seq in Hi. lia.
Qed.

Lemma argsort_in_range (v : list Z) :
  Forall (fun i => (i < List.length v)%nat) (argsort v).
Proof. apply perm_in_range, argsort_perm. Qed.

Lemma nargsort_ascending (items : list Z) :
  nargsort argsort items true = argsort items.
Proof.
  unfold nargsort. rewrite <- (map_id (argsort items)) at 2.
  apply map_ext_in. intros j Hj.
  pose proof (argsort_in_range items) as Hr.
  rewrite Forall_forall in Hr. apply seq_nth. auto.
Qed.

Lemma nargsort_descending (items : list Z) :
  nargsort argsort items false
  = rev (map (fun j => (List.length items - S j)%nat) (argsort (rev items))).
Proof.
  unfold nargsort. f_equal. apply map_ext_in. intros j Hj.
  pose proof (argsort_in_range (rev items)) as Hr.
  rewrite Forall_forall in Hr. specialize (Hr _ Hj).
  rewrite length_rev in Hr.
  rewrite rev_nth by (rewrite length_seq; exact Hr).
  rewrite length_seq. apply seq_nth. lia.
Qed.

Lemma nargsort_perm (items : list Z) (ascending : bool) :
  Permutation (nargsort argsort items ascending) (seq 0 (List.length items)).
Proof.
  destruct ascending.
  - rewrite nargsort_ascending. apply argsort_perm.
  - unfold nargsort.
    pose proof (map_nth_seq (rev (seq 0 (List.length items))) O) as E.
    rewrite length_rev, length_seq in E.
    pose proof (argsort_perm (rev items)) as Hp.
    rewrite length_rev in Hp.
    eapply Permutation_trans; [apply Permutation_sym, Permutation_rev|].
    eapply Permutation_trans; [apply Permutation_map, Hp|].
    rewrite E. apply Permutation_sym, Permutation_rev.
Qed.

Lemma nargsort_in_range (items : list Z) (ascending : bool) :
  Forall (fun i => (i < List.length items)%nat)
         (nargsort argsort items ascending).
Proof. apply perm_in_range, nargsort_perm. Qed.

Lemma key_at_rev (items : list Z) (j : nat) :
  (j < List.length items)%nat ->
  key_at items (List.length items - S j) = key_at (rev items) j.
Proof. intros Hj. unfold key_at. symmetry. apply rev_nth. exact Hj. Qed.

(** The column read along the indexer. *)
Lemma keys_along_nargsort (items : list Z) (ascending : bool) :
  map (key_at items) (nargsort argsort items ascending)
  = if ascending then map (key_at items) (argsort items)
    else rev (map (key_at (rev items)) (argsort (rev items))).
Proof.
  destruct ascending.
  - rewrite nargsort_ascending. reflexivity.
  - rewrite nargsort_descending, map_rev, map_map. f_equal.
    apply map_ext_in. intros j Hj.
    pose proof (argsort_in_range (rev items)) as Hr.
    rewrite Forall_forall in Hr. specialize (Hr _ Hj).
    rewrite length_rev in Hr. apply key_at_rev, Hr.
Qed.

Lemma comps_of_sort_values (roster : list (row Z)) (ascending : bool) :
  map comp_usd (sort_values argsort roster ascending)
  = map (key_at (map comp_usd roster))
        (nargsort argsort (map comp_usd roster) ascending).
Proof.
  unfold sort_values. apply map_take.
  rewrite <- (length_map comp_usd roster). apply nargsort_in_range.
Qed.

Lemma length_sort_values (roster : list (row Z)) (ascending : bool) :
  List.length (sort_values argsort roster ascending) = List.length roster.
Proof.
  unfold sort_values. rewrite length_take.
  - rewrite (Permutation_length (nargsort_perm _ _)), length_seq.
    apply length_map.
  - rewrite <- (length_map comp_usd roster). apply nargsort_in_range.
Qed.

(** C3: for a target count [N >= 0] the selection has [min N (len roster)]
    rows, in either direction; for [N = 0] it is empty. *)
Theorem select_length (roster : list (row Z)) (N : Z) (ascending : bool) :
  (0 <= N)%Z ->
  Z.of_nat (List.length (select argsort roster N ascending))
  = Z.min N (Z.of_nat (List.length roster))
  /\ select argsort roster 0 ascending = [].
Proof.
  intros HN. unfold select, head. split.
  - destruct (0 <=? N)%Z eqn:E; [|lia].
    rewrite length_firstn, length_sort_values. lia.
  - reflexivity.
Qed.

Lemma sorted_along_argsort (v : list Z) :
  StronglySorted Z.le (map (key_at v) (argsort v)).
Proof.
  apply Sorted_StronglySorted; [|apply argsort_sorted].
  intros x y z. apply Z.le_trans.
Qed.

(** C4: the compensations of the selection never decrease when the sort
    is ascending and never increase when it is descending, each row
    against every later row. *)
Theorem select_sorted (roster : list (row Z)) (N : Z) :
  StronglySorted Z.le (map comp_usd (select argsort roster N true))
  /\ StronglySorted Z.ge (map comp_usd (select argsort roster N false)).
Proof.
  unfold select. rewrite !head_map, !comps_of_sort_values.
  rewrite !keys_along_nargsort.
  destruct (head_is_firstn N (map (key_at (map comp_usd roster))
                                 (argsort (map comp_usd roster)))) as [k ->].
  destruct (head_is_firstn N
              (rev (map (key_at (rev (map comp_usd roster)))
                        (argsort (rev (map comp_usd roster)))))) as [k' ->].
  split; apply StronglySorted_firstn.
  - apply sorted_along_argsort.
  - apply (StronglySorted_weaken (fun x y => (y <= x)%Z)); [intros; lia|].
    apply StronglySorted_rev, sorted_along_argsort.
Qed.

End DefaultSort.

Section StableSort.

Variable argsort : list Z -> list nat.

Hypothesis argsort_perm :
  forall v, Permutation (argsort v) (seq 0 (List.length v)).

(** What a stable kind adds: equal values stay in the order of their
    positions. *)
Hypothesis argsort_keeps_ties :
  forall v, StronglySorted (before v) (argsort v).

(** Along the indexer of either direction, positions with equal values
    increase. *)
Lemma nargsort_keeps_ties (items : list Z) (ascending : bool) :
  StronglySorted
    (fun i j => key_at items i = key_at items j -> (i < j)%nat)
    (nargsort argsort items ascending).
Proof.
  destruct ascending.
  - rewrite (nargsort_ascending argsort argsort_perm).
    apply (StronglySorted_weaken (before items)); [|apply argsort_keeps_ties].
    unfold before. intros i j _ _ [H|[_ H]] E; [lia|exact H].
  - rewrite (nargsort_descending argsort argsort_perm).
    apply (StronglySorted_rev
             (fun j i => key_at items i = key_at items j -> (i < j)%nat)).
    apply StronglySorted_map.
    apply (StronglySorted_weaken (before (rev items)));
      [|apply argsort_keeps_ties].
    pose proof (argsort_in_range argsort argsort_perm (rev items)) as Hr.
    rewrite Forall_forall, length_rev in Hr.
    intros a b Ha Hb Hab E.
    apply Hr in Ha. apply Hr in Hb.
    rewrite !key_at_rev in E by assumption.
    unfold before in Hab. destruct Hab as [H|[_ H]]; lia.
Qed.

Lemma key_of_row (roster : list (row Z)) (i : nat) (x : row Z) :
  nth_error roster i = Some x ->
  key_at (map comp_usd roster) i = comp_usd x.
Proof.
  intros Hx. unfold key_at. apply nth_error_nth.
  apply map_nth_error. exact Hx.
Qed.

(** A stable sort leaves the rows of each compensation as they were. *)
Lemma sort_values_keeps_ties (roster : list (row Z)) (ascending : bool) (c : Z) :
  filter (has_comp c) (sort_values argsort roster ascending)
  = filter (has_comp c) roster.
Proof.
  set (keys := map comp_usd roster).
  set (q := fun i => (key_at keys i =? c)%Z).
  assert (Hpq : forall i x, nth_error roster i = Some x -> q i = has_comp c x).
  { intros i x Hx. unfold q, has_comp, keys.
    rewrite (key_of_row _ _ _ Hx). reflexivity. }
  pose proof (nargsort_perm argsort argsort_perm keys ascending) as Hperm.
  assert (Hlen : List.length keys = List.length roster)
    by apply length_map.
  unfold sort_values. fold keys.
  rewrite (filter_take _ q) by
    (try exact Hpq; rewrite <- Hlen; apply perm_in_range, Hperm).
  replace (filter (has_comp c) roster)
    with (filter (has_comp c) (take (seq 0 (List.length roster)) roster))
    by (rewrite take_seq; reflexivity).
  rewrite (filter_take _ q) by
    (try exact Hpq; apply perm_in_range, Permutation_refl).
  f_equal. rewrite <- Hlen. apply increasing_unique.
  - apply (StronglySorted_weaken
             (fun i j => key_at keys i = key_at keys j -> (i < j)%nat)).
    + intros i j Hi Hj H. apply filter_In in Hi, Hj. apply H.
      unfold q in Hi, Hj. lia.
    + apply StronglySorted_filter, nargsort_keeps_ties.
  - apply StronglySorted_filter, seq_increasing.
  - intros i. rewrite !filter_In. split; intros [Hi Hq]; split; trivial.
    + apply (Permutation_in _ Hperm), Hi.
    + apply (Permutation_in _ (Permutation_sym Hperm)), Hi.
Qed.

(** What [kind="stable"] would give, which line 75 does not ask for: the
    rows of the selection with equal [comp_usd] in the order they had in
    the roster, for every roster, target count and direction. *)
Theorem select_keeps_roster_order
    (roster : list (row Z)) (N : Z) (ascending : bool) :
  keeps_roster_order roster (select argsort roster N ascending).
Proof.
  intros c. unfold select.
  destruct (head_is_firstn N (sort_values argsort roster ascending))
    as [k ->].
  exists (filter (has_comp c)
                 (skipn k (sort_values argsort roster ascending))).
  rewrite <- filter_app, firstn_skipn.
  symmetry. apply sort_values_keeps_ties.
Qed.

End StableSort.

End SelectionFacts.

(** ** The two sorts *)

Module NumpyFacts.

Import Pandas App Numpy Notions Examples SelectionFacts.

(** *** The stable sort meets what numpy promises, and keeps ties *)

Lemma insert_sorted_perm {A : Type} (le : A -> A -> bool) (x : A) (l : list A) :
  Permutation (insert_sorted le x l) (x :: l).
Proof.
  induction l as [|y l IH]; simpl; [apply Permutation_refl|].
  destruct (le x y); [apply Permutation_refl|].
  apply Permutation_trans with (y :: x :: l).
  - apply perm_skip, IH.
  - apply perm_swap.
Qed.

Lemma sorted_perm {A : Type} (le : A -> A -> bool) (l : list A) :
  Permutation (sorted le l) l.
Proof.
  induction l as [|x l IH]; simpl; [apply perm_nil|].
  apply Permutation_trans with (x :: sorted le l).
  - apply insert_sorted_perm.
  - apply perm_skip, IH.
Qed.

Lemma insert_sorted_lex (p : Z * nat) (l : list (Z * nat)) :
  StronglySorted lex l ->
  Forall (fun q => (snd p < snd q)%nat) l ->
  StronglySorted lex (insert_sorted le_keyed p l).
Proof.
  induction 1 as [|y l Hl IH Hy]; intros Hp; simpl.
  - constructor; constructor.
  - inversion Hp as [|? ? Hpy Hpl]; subst.
    unfold le_keyed at 1. destruct (fst p <=? fst y)%Z eqn:E.
    + apply Z.leb_le in E. constructor.
      * constructor; assumption.
      * constructor; [unfold lex; lia|].
        rewrite Forall_forall in *. intros z Hz.
        specialize (Hy z Hz). specialize (Hpl z Hz). unfold lex in *. lia.
    + apply Z.leb_gt in E. constructor.
      * apply IH. exact Hpl.
      * rewrite Forall_forall in *. intros z Hz.
        apply (Permutation_in _ (insert_sorted_perm le_keyed p l)) in Hz.
        destruct Hz as [<-|Hz]; [unfold lex; lia|apply Hy, Hz].
Qed.

Lemma sorted_lex (v : list Z) (k : nat) :
  StronglySorted lex (sorted le_keyed (combine v (seq k (List.length v)))).
Proof.
  revert k. induction v as [|x v IH]; intros k; simpl; [constructor|].
  apply insert_sorted_lex; [apply IH|].
  apply Forall_forall. intros q Hq.
  apply (Permutation_in _ (sorted_perm le_keyed _)) in Hq.
  destruct q as [y i]. apply in_combine_r, in_seq in Hq. simpl. lia.
Qed.

Lemma in_combine_seq (v : list Z) (k : nat) (x : Z) (i : nat) :
  In (x, i) (combine v (seq k (List.length v))) ->
  (k <= i)%nat /\ nth (i - k) v 0%Z = x.
Proof.
  revert k. induction v as [|y v IH]; intros k; simpl; [tauto|].
  intros [[= <- <-]|Hin].
  - rewrite Nat.sub_diag. auto.
  - apply IH in Hin. destruct Hin as [Hk Hx].
    split; [lia|]. replace (i - k)%nat with (S (i - S k)) by lia. exact Hx.
Qed.

Lemma map_snd_combine {A B : Type} (l : list A) (l' : list B) :
  List.length l = List.length l' -> map snd (combine l l') = l'.
Proof.
  revert l'. induction l as [|x l IH]; intros [|y l']; simpl;
    try discriminate; try reflexivity.
  intros [= H]. f_equal. apply IH, H.
Qed.

Lemma argsort_stable_perm (v : list Z) :
  Permutation (argsort_stable v) (seq 0 (List.length v)).
Proof.
  unfold argsort_stable.
  rewrite <- (map_snd_combine v (seq 0 (List.length v))) at 2
    by (rewrite length_seq; reflexivity).
  apply Permutation_map, sorted_perm.
Qed.

Lemma argsort_stable_keeps_ties (v : list Z) :
  StronglySorted (before v) (argsort_stable v).
Proof.
  unfold argsort_stable.
  apply (proj1 (StronglySorted_map (before v) snd _)).
  apply (StronglySorted_weaken lex); [|apply sorted_lex].
  intros [x i] [y j] Hp Hq H.
  apply (Permutation_in _ (sorted_perm le_keyed _)) in Hp, Hq.
  apply in_combine_seq in Hp, Hq.
  destruct Hp as [_ Hp], Hq as [_ Hq]. rewrite Nat.sub_0_r in Hp, Hq.
  unfold before, key_at, lex in *. simpl in *. rewrite Hp, Hq. exact H.
Qed.

Lemma before_sorted (v : list Z) (idx : list nat) :
  StronglySorted (before v) idx -> Sorted Z.le (map (key_at v) idx).
Proof.
  intros H. apply StronglySorted_Sorted.
  apply (proj1 (StronglySorted_map Z.le (key_at v) _)).
  apply (StronglySorted_weaken (before v)); [|exact H].
  unfold before. intros; lia.
Qed.

Lemma argsort_stable_sorted (v : list Z) :
  Sorted Z.le (map (key_at v) (argsort_stable v)).
Proof. apply before_sorted, argsort_stable_keeps_ties. Qed.

(** *** A sort that keeps the promise and reverses ties *)

Lemma insert_sorted_by_value (p : Z * nat) (l : list (Z * nat)) :
  StronglySorted (fun a b => (fst a <= fst b)%Z) l ->
  StronglySorted (fun a b => (fst a <= fst b)%Z) (insert_sorted lt_keyed p l).
Proof.
  induction 1 as [|y l Hl IH Hy]; simpl.
  - constructor; constructor.
  - unfold lt_keyed at 1. destruct (Z.ltb_spec (fst p) (fst y)) as [Hpy|Hpy].
    + constructor; [constructor; assumption|].
      constructor; [lia|].
      rewrite Forall_forall in *. intros z Hz. specialize (Hy z Hz). lia.
    + constructor; [exact IH|].
      rewrite Forall_forall in *. intros z Hz.
      apply (Permutation_in _ (insert_sorted_perm lt_keyed p l)) in Hz.
      destruct Hz as [<-|Hz]; [lia|apply Hy, Hz].
Qed.

Lemma argsort_reversing_perm (v : list Z) :
  Permutation (argsort_reversing v) (seq 0 (List.length v)).
Proof.
  unfold argsort_reversing.
  rewrite <- (map_snd_combine v (seq 0 (List.length v))) at 2
    by (rewrite length_seq; reflexivity).
  apply Permutation_map, sorted_perm.
Qed.

Lemma argsort_reversing_sorted (v : list Z) :
  Sorted Z.le (map (key_at v) (argsort_reversing v)).
Proof.
  apply StronglySorted_Sorted. unfold argsort_reversing. rewrite map_map.
  apply (proj1 (StronglySorted_map Z.le (fun p => key_at v (snd p)) _)).
  apply (StronglySorted_weaken (fun a b => (fst a <= fst b)%Z)).
  - intros [x i] [y j] Hp Hq H.
    apply (Permutation_in _ (sorted_perm lt_keyed _)) in Hp, Hq.
    apply in_combine_seq in Hp, Hq.
    destruct Hp as [_ Hp], Hq as [_ Hq]. rewrite Nat.sub_0_r in Hp, Hq.
    unfold key_at. simpl in *. rewrite Hp, Hq. exact H.
  - induction (combine v (seq 0 (List.length v))) as [|p l IH]; simpl;
      [constructor|apply insert_sorted_by_value, IH].
Qed.

(** *** Runs *)

Lemma select_length_witness :
  Z.of_nat (List.length (select argsort_stable staff 3 true))
  = Z.min 3 (Z.of_nat (List.length staff))
  /\ select argsort_stable staff 0 true = [].
Proof.
  apply (select_length argsort_stable argsort_stable_perm staff 3 true).
  lia.
Defined.

Lemma select_sorted_witness :
  StronglySorted Z.le (map comp_usd (select argsort_stable staff 3 true))
  /\ StronglySorted Z.ge (map comp_usd (select argsort_stable staff 3 false)).
Proof.
  apply (select_sorted argsort_stable argsort_stable_perm
           argsort_stable_sorted staff 3).
Defined.

Lemma select_keeps_roster_order_witness :
  keeps_roster_order staff (select argsort_stable staff 4 false).
Proof.
  apply (select_keeps_roster_order argsort_stable argsort_stable_perm
           argsort_stable_keeps_ties staff 4 false).
Defined.

(** C1 fails as stated.  numpy's generic introsort returns twenty rows of
    equal compensation in another order than the roster's, so the selection
    of all twenty has E18 before E02.  And whatever sort a build of numpy
    runs, its promise leaves the order of equal values open: the rows of
    the selection do not keep the roster's order under every sort that
    keeps the promise. *)
Lemma default_sort_reorders_equal_rows :
  map cells (select argsort_quicksort tied_roster 20 true)
  = [ ["E01"]; ["E18"]; ["E17"]; ["E16"]; ["E15"]; ["E14"]; ["E13"]; ["E12"];
      ["E11"]; ["E10"]; ["E09"]; ["E08"]; ["E07"]; ["E06"]; ["E05"]; ["E04"];
      ["E03"]; ["E02"]; ["E19"]; ["E20"] ]%string
  /\ ~ keeps_roster_order tied_roster
        (select argsort_quicksort tied_roster 20 true)
  /\ ~ (forall argsort : list Z -> list nat,
          (forall v, Permutation (argsort v) (seq 0 (List.length v))) ->
          (forall v, Sorted Z.le (map (key_at v) (argsort v))) ->
          forall roster N ascending,
            keeps_roster_order roster (select argsort roster N ascending)).
Proof.
  split; [vm_compute; reflexivity|]. split.
  - intros H. destruct (H 50000%Z) as [rest E].
    vm_compute in E. congruence.
  - intros H.
    destruct (H argsort_reversing argsort_reversing_perm
                argsort_reversing_sorted staff 5%Z true 50000%Z) as [rest E].
    vm_compute in E. congruence.
Qed.

End NumpyFacts.

(** ** Rounding *)

Module Float64Facts.

Import Float64 Notions.

(** *** Rounding a quotient of integers to an integer *)

Lemma half_even_bounds (a b : Z) :
  0 < b -> 2 * a - b <= 2 * b * half_even a b <= 2 * a + b.
Proof.
  intros Hb. unfold half_even.
  pose proof (Z.div_mod a b ltac:(lia)) as Hdm.
  pose proof (Z.mod_pos_bound a b Hb) as Hr.
  destruct (Z.compare_spec (2 * (a mod b)) b) as [E|E|E];
    [destruct (Z.even (a / b))| |]; nia.
Qed.

Lemma half_even_exact (k b : Z) : 0 < b -> half_even (k * b) b = k.
Proof.
  intros Hb. unfold half_even.
  rewrite Z.div_mul, Z.mod_mul by lia. rewrite Z.mul_0_r.
  destruct (Z.compare_spec 0 b); lia.
Qed.

Lemma half_even_lower (a b k : Z) : 0 < b -> k * b <= a -> k <= half_even a b.
Proof. intros Hb H. pose proof (half_even_bounds a b Hb). nia. Qed.

Lemma half_even_upper (a b k : Z) : 0 < b -> a <= k * b -> half_even a b <= k.
Proof. intros Hb H. pose proof (half_even_bounds a b Hb). nia. Qed.

Lemma half_even_below (a b k : Z) :
  0 < b -> 2 * a + b < 2 * k * b -> half_even a b < k.
Proof. intros Hb H. pose proof (half_even_bounds a b Hb). nia. Qed.

(** *** Powers of two *)

Lemma pow2_pos (k : Z) : 0 < pow2 k.
Proof. unfold pow2. apply Z.pow_pos_nonneg; lia. Qed.

Lemma pow2_nonneg (k : Z) : 0 <= k -> pow2 k = 2 ^ k.
Proof. intros H. unfold pow2. rewrite Z.max_l by lia. reflexivity. Qed.

Lemma pow2_nonpos (k : Z) : k <= 0 -> pow2 k = 1.
Proof. intros H. unfold pow2. rewrite Z.max_r by lia. reflexivity. Qed.

Lemma pow2_add (j k : Z) : 0 <= j -> 0 <= k -> pow2 (j + k) = pow2 j * pow2 k.
Proof.
  intros Hj Hk. rewrite !pow2_nonneg by lia. apply Z.pow_add_r; assumption.
Qed.

(** Moving a power of two across: [pow2 (j - k)] against [pow2 (k - j)]. *)
Lemma pow2_balance (j k : Z) :
  0 <= j -> 0 <= k -> pow2 j * pow2 (k - j) = pow2 k * pow2 (j - k).
Proof.
  intros Hj Hk. destruct (Z.le_gt_cases j k).
  - rewrite (pow2_nonpos (j - k)), Z.mul_1_r by lia.
    rewrite <- pow2_add by lia. f_equal; lia.
  - rewrite (pow2_nonpos (k - j)), Z.mul_1_r by lia.
    rewrite <- pow2_add by lia. f_equal; lia.
Qed.

Lemma pow2_le (j k : Z) : j <= k -> pow2 j <= pow2 k.
Proof. intros H. unfold pow2. apply Z.pow_le_mono_r; lia. Qed.

Lemma pow2_succ (k : Z) : 0 <= k -> pow2 (k + 1) = 2 * pow2 k.
Proof. intros H. rewrite pow2_add by lia. change (pow2 1) with 2. lia. Qed.

(** *** The binary exponent *)

Lemma ilog2_spec (n d : positive) :
  at_least (Zpos n) (Zpos d) (ilog2 n d)
  /\ ~ at_least (Zpos n) (Zpos d) (ilog2 n d + 1).
Proof.
  unfold at_least, ilog2.
  pose proof (Z.log2_spec (Zpos n) ltac:(lia)) as Hn.
  pose proof (Z.log2_spec (Zpos d) ltac:(lia)) as Hd.
  pose proof (Z.log2_nonneg (Zpos n)) as Hn0.
  pose proof (Z.log2_nonneg (Zpos d)) as Hd0.
  set (a := Z.log2 (Zpos n)) in *. set (b := Z.log2 (Zpos d)) in *.
  rewrite Z.pow_succ_r in Hn, Hd by lia.
  rewrite <- !pow2_nonneg in Hn, Hd by lia.
  pose proof (pow2_balance a b Hn0 Hd0) as Hab.
  pose proof (pow2_pos a). pose proof (pow2_pos b).
  pose proof (pow2_pos (a - b)). pose proof (pow2_pos (b - a)).
  destruct (Z.leb_spec (Zpos d * pow2 (a - b)) (Zpos n * pow2 (- (a - b))))
    as [Hge|Hlt].
  - split; [exact Hge|].
    replace (- (a - b + 1)) with (b - a - 1) by lia.
    destruct (Z.le_gt_cases b a) as [Hba|Hba].
    + rewrite pow2_succ, (pow2_nonpos (b - a - 1)) by lia.
      rewrite (pow2_nonpos (b - a)) in Hab by lia. nia.
    + rewrite (pow2_nonpos (a - b + 1)) by lia.
      rewrite (pow2_nonpos (a - b)) in Hab by lia.
      replace (b - a) with (b - a - 1 + 1) in Hab by lia.
      rewrite pow2_succ in Hab by lia. nia.
  - replace (a - b - 1 + 1) with (a - b) by lia.
    replace (- (a - b)) with (b - a) in * by lia.
    split; [|lia].
    replace (- (a - b - 1)) with (b - a + 1) by lia.
    destruct (Z.le_gt_cases a b) as [Hba|Hba].
    + rewrite pow2_succ, (pow2_nonpos (a - b - 1)) by lia.
      rewrite (pow2_nonpos (a - b)) in Hab by lia. nia.
    + rewrite (pow2_nonpos (b - a + 1)) by lia.
      rewrite (pow2_nonpos (b - a)) in Hab by lia.
      replace (a - b) with (a - b - 1 + 1) in Hab by lia.
      rewrite pow2_succ in Hab by lia. nia.
Qed.

(** [2 ^ j <= n / d] is [2 ^ (j - p) <= n / (d * 2 ^ p)]. *)
Lemma at_least_scale (n d j p : Z) :
  0 <= p ->
  at_least n d j <-> d * pow2 p * pow2 (j - p) <= n * pow2 (p - j).
Proof.
  intros Hp. unfold at_least.
  pose proof (pow2_pos p). pose proof (pow2_pos j).
  pose proof (pow2_pos (- j)). pose proof (pow2_pos (p - j)).
  pose proof (pow2_pos (j - p)).
  destruct (Z.le_gt_cases p j) as [Hpj|Hpj].
  - rewrite (pow2_nonpos (- j)), (pow2_nonpos (p - j)) by lia.
    replace j with (p + (j - p)) at 1 by lia.
    rewrite pow2_add by lia. rewrite Z.mul_assoc. tauto.
  - destruct (Z.le_gt_cases 0 j) as [Hj|Hj].
    + rewrite (pow2_nonpos (- j)), (pow2_nonpos (j - p)) by lia.
      replace p with (j + (p - j)) at 1 by lia.
      rewrite pow2_add by lia. nia.
    + rewrite (pow2_nonpos j), (pow2_nonpos (j - p)) by lia.
      replace (p - j) with (p + - j) by lia.
      rewrite pow2_add by lia. nia.
Qed.

Lemma at_least_down (n d j k : Z) :
  0 <= n -> 0 < d -> k <= j -> at_least n d j -> at_least n d k.
Proof.
  unfold at_least. intros Hn Hd Hkj H.
  pose proof (pow2_le k j Hkj). pose proof (pow2_le (- j) (- k) ltac:(lia)).
  pose proof (pow2_pos k). pose proof (pow2_pos (- j)).
  nia.
Qed.

(** *** Rounding [t / c] for integers within 53 bits *)

Section Quotient.

Variables (n d : positive) (t c : Z).

Hypothesis Ht : 0 < t <= 2 ^ 53.
Hypothesis Hc : 0 < c <= 2 ^ 53.

(** [n / d] is [t / c]. *)
Hypothesis Hx : Zpos n * c = t * Zpos d.

Lemma quotient_exponent_le : ilog2 n d <= 53.
Proof.
  destruct (ilog2_spec n d) as [Hlo _].
  destruct (Z.le_gt_cases (ilog2 n d) 53) as [H|H]; [exact H|exfalso].
  apply (at_least_down _ _ _ 54) in Hlo; try lia.
  unfold at_least in Hlo. cbn [Z.opp] in Hlo.
  change (pow2 (-54)) with 1 in Hlo.
  change (pow2 54) with (2 * 2 ^ 53) in Hlo.
  assert (Zpos d * (2 * 2 ^ 53) * c <= t * Zpos d) by nia.
  nia.
Qed.

(** When [2 ^ e <= t / c] for an [e >= 0], the floor of [t / c] is at least
    [2 ^ e]. *)
Lemma quotient_floor_ge (e : Z) :
  0 <= e -> at_least (Zpos n) (Zpos d) e -> pow2 e <= t / c.
Proof.
  intros He H. unfold at_least in H.
  rewrite (pow2_nonpos (- e)) in H by lia.
  apply Z.div_le_lower_bound; [lia|].
  pose proof (pow2_pos e). nia.
Qed.

Lemma floor_bounds : t / c * c <= t < (t / c + 1) * c.
Proof.
  pose proof (Z.div_mod t c ltac:(lia)).
  pose proof (Z.mod_pos_bound t c ltac:(lia)). nia.
Qed.

Lemma ulp_exponent_le : ulp_exponent n d <= 1.
Proof. unfold ulp_exponent. pose proof quotient_exponent_le. lia. Qed.

Lemma significand_nonneg : 0 <= significand n d.
Proof.
  unfold significand. apply half_even_lower.
  - pose proof (pow2_pos (ulp_exponent n d)). lia.
  - pose proof (pow2_pos (- ulp_exponent n d)). lia.
Qed.

Lemma significand_le : significand n d <= 2 ^ 53.
Proof.
  unfold significand. set (s := ulp_exponent n d).
  pose proof (pow2_pos s) as Hs.
  apply half_even_upper; [lia|].
  destruct (ilog2_spec n d) as [_ Hhi].
  assert (Hno : ~ at_least (Zpos n) (Zpos d) (s + 53)).
  { intros H. apply Hhi.
    apply (at_least_down (Zpos n) (Zpos d) (s + 53) (ilog2 n d + 1));
      [lia|lia|unfold s, ulp_exponent; lia|exact H]. }
  rewrite (at_least_scale _ _ _ 53) in Hno by lia.
  replace (s + 53 - 53) with s in Hno by lia.
  replace (53 - (s + 53)) with (- s) in Hno by lia.
  change (pow2 53) with (2 ^ 53) in Hno. lia.
Qed.

Lemma round_pos_finite : round_pos n d = Some (scale2 (significand n d) (ulp_exponent n d)).
Proof.
  unfold round_pos. fold (ulp_exponent n d). fold (significand n d).
  pose proof significand_le as Hm. pose proof significand_nonneg as Hm0.
  pose proof (pow2_le _ _ ulp_exponent_le) as Hs.
  pose proof (pow2_pos (ulp_exponent n d)) as Hs0.
  change (pow2 1) with 2 in Hs.
  assert (Hsmall : (significand n d) * pow2 (ulp_exponent n d) <= 2 ^ 54).
  { change (2 ^ 54) with (2 ^ 53 * 2). apply Z.mul_le_mono_nonneg; lia. }
  assert (Hbig : 2 ^ 54 < 2 ^ 1024) by reflexivity.
  destruct (Z.leb_spec (2 ^ 1024) ((significand n d) * pow2 (ulp_exponent n d))) as [H|H];
    [exfalso|reflexivity].
  apply (Z.lt_irrefl (2 ^ 54)).
  eapply Z.lt_le_trans; [exact Hbig|].
  eapply Z.le_trans; [exact H|exact Hsmall].
Qed.

Lemma trunc_scale2 :
  trunc (scale2 (significand n d) (ulp_exponent n d))
  = (significand n d) * pow2 (ulp_exponent n d) / pow2 (- ulp_exponent n d).
Proof.
  unfold trunc, scale2; simpl.
  rewrite Z2Pos.id by apply pow2_pos.
  apply Z.quot_div_nonneg.
  - pose proof significand_nonneg. pose proof (pow2_pos (ulp_exponent n d)). nia.
  - apply pow2_pos.
Qed.

(** In the last binade, [t / c] is [2 ^ 53] itself. *)
Lemma top_binade :
  0 < (ulp_exponent n d) -> c = 1 /\ t = 2 ^ 53 /\ (ulp_exponent n d) = 1.
Proof.
  intros Hs. pose proof ulp_exponent_le as Hle.
  assert (He : ilog2 n d = 53) by (unfold ulp_exponent in *; lia).
  destruct (ilog2_spec n d) as [Hlo _]. rewrite He in Hlo.
  unfold at_least in Hlo. cbn [Z.opp] in Hlo.
  change (pow2 (-53)) with 1 in Hlo. change (pow2 53) with (2 ^ 53) in Hlo.
  assert (Zpos d * 2 ^ 53 * c <= t * Zpos d) by nia.
  assert (2 ^ 53 * c <= t) by nia.
  repeat split; lia.
Qed.

Lemma significand_floor :
  (significand n d) * pow2 (ulp_exponent n d) / pow2 (- ulp_exponent n d) = t / c.
Proof.
  pose proof floor_bounds as [Hk1 Hk2]. set (k := t / c) in *.
  destruct (Z.le_gt_cases (ulp_exponent n d) 0) as [Hs|Hs].
  - (* at least one bit below the unit *)
    unfold significand.
    set (s := ulp_exponent n d) in *. set (P := pow2 (- s)).
    rewrite (pow2_nonpos s), !Z.mul_1_r by lia.
    pose proof (pow2_pos (- s)) as HP. fold P in HP.
    assert (Hkd : k * Zpos d <= Zpos n) by nia.
    assert (Hlow : k * P <= half_even (Zpos n * P) (Zpos d)).
    { apply half_even_lower; [lia|]. nia. }
    assert (Hup : half_even (Zpos n * P) (Zpos d) < (k + 1) * P).
    { apply half_even_below; [lia|].
      assert (Hc2 : k * c = t \/ c < 2 * P).
      { destruct (Z.eq_dec (k * c) t) as [Heq|Hne]; [left; exact Heq|right].
        destruct (Z.le_gt_cases 0 (ilog2 n d)) as [He|He].
        - assert (Hs' : s = ilog2 n d - 52) by (unfold s, ulp_exponent; lia).
          destruct (ilog2_spec n d) as [Hlo _].
          pose proof (quotient_floor_ge _ He Hlo) as Hfl. fold k in Hfl.
          pose proof (pow2_pos (ilog2 n d)) as HE.
          assert (H53 : pow2 (ilog2 n d) * P = 2 ^ 52).
          { unfold P. rewrite <- pow2_add by lia.
            replace (ilog2 n d + - s) with 52 by lia. reflexivity. }
          assert (c * pow2 (ilog2 n d) < 2 ^ 53) by nia.
          nia.
        - assert (pow2 53 <= P).
          { unfold P. apply pow2_le. unfold s, ulp_exponent. lia. }
          change (pow2 53) with (2 ^ 53) in *. lia. }
      assert (Hprod : 2 * (Zpos n * P) * c + Zpos d * c
                      < 2 * ((k + 1) * P) * Zpos d * c).
      { rewrite <- !Z.mul_assoc, (Z.mul_comm P c), !Z.mul_assoc.
        replace (2 * Zpos n * c) with (2 * t * Zpos d) by nia.
        destruct Hc2 as [Heq|Hlt]; nia. }
      nia. }
    symmetry. apply (Z.div_unique _ _ _ (half_even (Zpos n * P) (Zpos d) - k * P));
      lia.
  - destruct (top_binade Hs) as (-> & -> & Hs1).
    unfold significand. rewrite Hs1. cbn [Z.opp].
    change (pow2 (-1)) with 1. change (pow2 1) with 2.
    assert (Hn : Zpos n = 2 ^ 53 * Zpos d) by lia.
    rewrite Hn, Z.mul_1_r.
    replace (2 ^ 53 * Zpos d) with (2 ^ 52 * (Zpos d * 2))
      by (change (2 ^ 53) with (2 ^ 52 * 2); lia).
    rewrite half_even_exact by lia. reflexivity.
Qed.

(** Rounding [t / c] and truncating gives the integer quotient. *)
Lemma round_pos_quotient :
  exists r, round_pos n d = Some r /\ trunc r = t / c.
Proof.
  exists (scale2 (significand n d) (ulp_exponent n d)). split.
  - apply round_pos_finite.
  - rewrite trunc_scale2. apply significand_floor.
Qed.

(** Rounding an integer leaves it as it is. *)
Lemma round_pos_integer :
  c = 1 ->
  exists r, round_pos n d = Some r /\ r == inject_Z t.
Proof.
  intros Hc1. exists (scale2 (significand n d) (ulp_exponent n d)).
  split; [apply round_pos_finite|].
  assert (Hn : Zpos n = t * Zpos d) by lia.
  unfold Qeq, scale2; simpl. rewrite Z2Pos.id by apply pow2_pos.
  rewrite Z.mul_1_r.
  destruct (Z.le_gt_cases (ulp_exponent n d) 0) as [Hs|Hs].
  - unfold significand. rewrite (pow2_nonpos (ulp_exponent n d)), !Z.mul_1_r by lia.
    rewrite Hn.
    replace (t * Zpos d * pow2 (- ulp_exponent n d))
      with (t * pow2 (- ulp_exponent n d) * Zpos d) by lia.
    apply half_even_exact. lia.
  - destruct (top_binade Hs) as (_ & Ht53 & Hs1).
    unfold significand. rewrite Hs1. cbn [Z.opp].
    change (pow2 (-1)) with 1. change (pow2 1) with 2.
    rewrite Hn, Ht53, !Z.mul_1_r.
    replace (2 ^ 53 * Zpos d) with (2 ^ 52 * (Zpos d * 2))
      by (change (2 ^ 53) with (2 ^ 52 * 2); lia).
    rewrite half_even_exact by lia. reflexivity.
Qed.

End Quotient.

(** *** Floats that hold integers *)

Lemma trunc_opp (q : Q) : trunc (- q) = - trunc q.
Proof. unfold trunc; simpl. apply Z.quot_opp_l. discriminate. Qed.

(** If [x] is [t / c] with both within 53 bits, [round x] truncates to the
    quotient of [t] by [c], rounded toward zero. *)
Lemma round_quotient (x : Q) (t c : Z) :
  Qnum x * c = t * Zpos (Qden x) ->
  Z.abs t <= 2 ^ 53 -> 0 < c <= 2 ^ 53 ->
  exists r, round x = Finite r /\ trunc r = Z.quot t c.
Proof.
  intros Hx Ht Hc. unfold round. destruct (Qnum x) as [|n|n] eqn:En.
  - assert (t = 0) by nia. subst t. exists 0%Q. split; reflexivity.
  - assert (0 < t) by nia.
    destruct (round_pos_quotient n (Qden x) t c) as (r & -> & Hr);
      try lia.
    exists r. split; [reflexivity|].
    rewrite Hr. symmetry. apply Z.quot_div_nonneg; lia.
  - assert (t < 0) by nia.
    destruct (round_pos_quotient n (Qden x) (- t) c) as (r & -> & Hr);
      try lia.
    exists (- r)%Q. split; [reflexivity|].
    rewrite trunc_opp, Hr, <- Z.quot_div_nonneg by lia.
    rewrite Z.quot_opp_l by lia. lia.
Qed.

Lemma round_integer (x : Q) (z : Z) :
  Qnum x = z * Zpos (Qden x) -> Z.abs z <= 2 ^ 53 -> holds (round x) z.
Proof.
  intros Hx Hz. unfold round, holds. destruct (Qnum x) as [|n|n] eqn:En.
  - assert (z = 0) by nia. subst z. exists 0%Q. split; reflexivity.
  - assert (0 < z) by nia.
    destruct (round_pos_integer n (Qden x) z 1) as (r & -> & Hr);
      try lia.
    exists r. split; [reflexivity|].
    unfold Qeq in Hr; simpl in Hr. lia.
  - assert (z < 0) by nia.
    destruct (round_pos_integer n (Qden x) (- z) 1) as (r & -> & Hr);
      try lia.
    exists (- r)%Q. split; [reflexivity|].
    unfold Qeq in Hr; simpl in Hr. simpl. lia.
Qed.

Lemma of_int_holds (z : Z) : Z.abs z <= 2 ^ 53 -> holds (of_int z) z.
Proof. intros Hz. apply round_integer; simpl; lia. Qed.

Lemma add_holds (x y : float64) (a b : Z) :
  holds x a -> holds y b -> Z.abs (a + b) <= 2 ^ 53 -> holds (add x y) (a + b).
Proof.
  intros (p & -> & Hp) (q & -> & Hq) Hab. simpl.
  apply round_integer; [|exact Hab].
  simpl. rewrite Hp, Hq, Pos2Z.inj_mul. ring.
Qed.

Lemma int_of_float_holds (x : float64) (z : Z) :
  holds x z -> int_of_float x = Ok z.
Proof.
  intros (q & -> & Hq). simpl. f_equal. unfold trunc.
  rewrite Hq. apply Z.quot_mul. discriminate.
Qed.

Lemma div_holds (x y : float64) (t c : Z) :
  holds x t -> holds y c ->
  Z.abs t <= 2 ^ 53 -> 0 < c <= 2 ^ 53 ->
  int_of_float (div x y) = Ok (Z.quot t c).
Proof.
  intros (p & -> & Hp) (q & -> & Hq) Ht Hc. simpl.
  unfold is_zero. destruct (Z.eqb_spec (Qnum q) 0) as [E|_]; [nia|].
  destruct (round_quotient (p / q) t c) as (r & -> & Hr); try assumption.
  - unfold Qdiv, Qinv. destruct (Qnum q) as [|qn|qn] eqn:En; try nia.
    simpl. rewrite Hp, Pos2Z.inj_mul.
    replace (Zpos qn) with (c * Zpos (Qden q)) by lia. ring.
  - simpl. rewrite Hr. reflexivity.
Qed.

Lemma leb_holds (x y : float64) (a b : Z) :
  holds x a -> holds y b -> leb x y = (a <=? b).
Proof.
  intros (p & -> & Hp) (q & -> & Hq). simpl.
  apply eq_true_iff_eq. rewrite Qle_bool_iff, Z.leb_le.
  unfold Qle. rewrite Hp, Hq.
  replace (a * Zpos (Qden p) * Zpos (Qden q))
    with (a * (Zpos (Qden p) * Zpos (Qden q))) by ring.
  replace (b * Zpos (Qden q) * Zpos (Qden p))
    with (b * (Zpos (Qden p) * Zpos (Qden q))) by ring.
  symmetry. apply Z.mul_le_mono_pos_r. lia.
Qed.

End Float64Facts.

(** ** The summary *)

Module SummaryFacts.

Import Float64 Pandas App Notions Examples Float64Facts.

(** C5: the summary of the empty selection is all zeros, and is a value,
    not an exception. *)
Theorem summarize_empty :
  summarize [] = Ok {| count := 0; total := 0; average := 0; median := 0 |}.
Proof. reflexivity. Qed.

(** Without the guard on [selected.empty] the mean of no rows is [NaN],
    which [int] refuses. *)
Lemma mean_empty_is_not_an_int :
  int_of_float (series_mean [])
  = Raise (ValueError "cannot convert float NaN to integer").
Proof. reflexivity. Qed.

(** *** The mean *)

Lemma abs_sum_nonneg (l : list Z) : 0 <= abs_sum l.
Proof. induction l as [|x l IH]; simpl; lia. Qed.

(** Adding up a column as floats is exact while the absolute values fit
    in 53 bits. *)
Lemma float_sum_holds (l : list Z) (acc : float64) (S : Z) :
  holds acc S ->
  Z.abs S + abs_sum l <= 2 ^ 53 ->
  holds (fold_left add (map of_int l) acc) (S + exact_sum l).
Proof.
  revert acc S. induction l as [|x l IH]; intros acc S Hacc Hb; simpl in *.
  - rewrite Z.add_0_r. exact Hacc.
  - pose proof (abs_sum_nonneg l).
    replace (S + (x + exact_sum l)) with (S + x + exact_sum l) by ring.
    apply IH; [|lia].
    apply add_holds; [exact Hacc|apply of_int_holds; lia|lia].
Qed.

Lemma holds_zero : holds (Finite 0) 0.
Proof. exists 0%Q. split; reflexivity. Qed.

Lemma series_mean_truncated (l : list Z) :
  l <> [] ->
  Z.of_nat (List.length l) <= 2 ^ 53 ->
  abs_sum l <= 2 ^ 53 ->
  int_of_float (series_mean l)
  = Ok (Z.quot (exact_sum l) (Z.of_nat (List.length l))).
Proof.
  intros Hne Hn Hb. unfold series_mean.
  destruct l as [|x l]; [congruence|].
  change (List.length (x :: l) =? 0)%nat with false. cbv iota.
  apply div_holds.
  - apply (float_sum_holds (x :: l) (Finite 0) 0 holds_zero). simpl in *. lia.
  - apply of_int_holds. lia.
  - pose proof (float_sum_holds (x :: l) (Finite 0) 0 holds_zero).
    assert (Hle : forall l', Z.abs (exact_sum l') <= abs_sum l').
    { induction l' as [|y l' IH]; simpl; lia. }
    specialize (Hle (x :: l)). lia.
  - simpl List.length in *. lia.
Qed.

(** C6, as the code has it: the average of the empty selection is 0; the
    average of a non-empty selection whose compensations add up, in absolute
    value, to at most [2 ^ 53] is the exact sum divided by the number of
    rows, truncated toward zero. *)
Theorem average_cost_truncated_mean :
  average_cost [] = Ok 0
  /\ forall selected : list (row Z),
       selected <> [] ->
       Z.of_nat (List.length selected) <= 2 ^ 53 ->
       abs_sum (map comp_usd selected) <= 2 ^ 53 ->
       average_cost selected
       = Ok (Z.quot (exact_sum (map comp_usd selected))
                    (Z.of_nat (List.length selected))).
Proof.
  split; [reflexivity|].
  intros selected Hne Hn Hb. unfold average_cost, empty.
  destruct selected as [|r rs]; [congruence|].
  change (negb (List.length (r :: rs) =? 0)%nat) with true. cbv iota.
  rewrite <- (length_map comp_usd (r :: rs)).
  apply series_mean_truncated.
  - discriminate.
  - rewrite length_map. exact Hn.
  - exact Hb.
Qed.

(** *** The median *)

Lemma insert_sorted_map {A B : Type} (f : A -> B)
    (le : A -> A -> bool) (le' : B -> B -> bool) (x : A) (l : list A) :
  (forall y, In y l -> le' (f x) (f y) = le x y) ->
  insert_sorted le' (f x) (map f l) = map f (insert_sorted le x l).
Proof.
  induction l as [|y l IH]; intros H; simpl; [reflexivity|].
  rewrite (H y (or_introl eq_refl)). destruct (le x y); [reflexivity|].
  simpl. f_equal. apply IH. intros; apply H; right; assumption.
Qed.

Lemma sorted_map {A B : Type} (f : A -> B)
    (le : A -> A -> bool) (le' : B -> B -> bool) (l : list A) :
  (forall x y, In x l -> In y l -> le' (f x) (f y) = le x y) ->
  sorted le' (map f l) = map f (sorted le l).
Proof.
  induction l as [|x l IH]; intros H; simpl; [reflexivity|].
  rewrite IH by (intros; apply H; right; assumption).
  apply insert_sorted_map. intros y Hy. apply H; [left; reflexivity|right].
  apply (Permutation_in _ (NumpyFacts.sorted_perm le l)), Hy.
Qed.

Lemma series_median_conventional (l : list Z) :
  l <> [] ->
  Forall (fun x => Z.abs x <= 2 ^ 52) l ->
  int_of_float (series_median l) = Ok (conventional_median l).
Proof.
  intros Hne Hb. rewrite Forall_forall in Hb.
  assert (H53 : forall x, In x l -> Z.abs x <= 2 ^ 53).
  { intros x Hx. specialize (Hb x Hx).
    change (2 ^ 53) with (2 * 2 ^ 52). lia. }
  unfold series_median, conventional_median.
  rewrite (sorted_map of_int Z.leb leb) by
    (intros x y Hx Hy; apply leb_holds; apply of_int_holds; auto).
  rewrite length_map.
  pose proof (NumpyFacts.sorted_perm Z.leb l) as Hperm.
  set (s := sorted Z.leb l) in *.
  assert (Hlen : List.length s = List.length l)
    by apply (Permutation_length Hperm).
  assert (Hpos : (0 < List.length s)%nat).
  { rewrite Hlen. destruct l; [congruence|simpl; lia]. }
  assert (Hnth : forall k, (k < List.length s)%nat ->
            nth k (map of_int s) NaN = of_int (nth k s 0)
            /\ Z.abs (nth k s 0) <= 2 ^ 52).
  { intros k Hk. split.
    - rewrite (nth_indep _ NaN (of_int 0)) by (rewrite length_map; exact Hk).
      apply map_nth.
    - apply Hb, (Permutation_in _ Hperm), nth_In, Hk. }
  destruct (List.length s =? 0)%nat eqn:E0;
    [apply Nat.eqb_eq in E0; lia|].
  set (n := List.length s) in *.
  destruct (Nat.odd n) eqn:Eodd.
  - assert (Hk : (n / 2 < n)%nat) by (apply Nat.div_lt; lia).
    destruct (Hnth _ Hk) as [-> Ha].
    apply int_of_float_holds, of_int_holds.
    change (2 ^ 53) with (2 * 2 ^ 52). lia.
  - assert (Hn2 : (2 <= n)%nat).
    { destruct n as [|[|n']]; [lia|discriminate|lia]. }
    assert (Hk : (n / 2 < n)%nat) by (apply Nat.div_lt; lia).
    assert (Hk' : (n / 2 - 1 < n)%nat) by lia.
    destruct (Hnth _ Hk) as [-> Ha]. destruct (Hnth _ Hk') as [-> Hb'].
    apply div_holds.
    + apply add_holds; try (apply of_int_holds);
        change (2 ^ 53) with (2 * 2 ^ 52); lia.
    + apply of_int_holds. simpl. lia.
    + change (2 ^ 53) with (2 * 2 ^ 52). lia.
    + split; [lia|]. discriminate.
Qed.

(** C7, as the code has it: the median of the empty selection is 0; the
    median of a non-empty selection whose compensations are at most
    [2 ^ 52] in absolute value is the conventional median (the middle value
    for an odd count, the mean of the two middle values for an even count)
    truncated toward zero. *)
Theorem median_cost_conventional :
  median_cost [] = Ok 0
  /\ forall selected : list (row Z),
       selected <> [] ->
       Forall (fun r => Z.abs (comp_usd r) <= 2 ^ 52) selected ->
       median_cost selected
       = Ok (conventional_median (map comp_usd selected)).
Proof.
  split; [reflexivity|].
  intros selected Hne Hb. unfold median_cost, empty.
  destruct selected as [|r rs]; [congruence|].
  change (negb (List.length (r :: rs) =? 0)%nat) with true. cbv iota.
  apply series_median_conventional.
  - discriminate.
  - apply Forall_map. exact Hb.
Qed.

(** *** Runs *)

Example select_three_lowest :
  select Numpy.argsort_quicksort five_employees 3 true = three_lowest
  /\ select Numpy.argsort_quicksort five_employees 3 false
     = [ employee "E5" 90000; employee "E4" 80000; employee "E3" 70000 ].
Proof. split; vm_compute; reflexivity. Qed.

Example summarize_nothing_selected :
  summarize (select Numpy.argsort_quicksort five_employees 0 true)
  = Ok {| count := 0; total := 0; average := 0; median := 0 |}.
Proof. reflexivity. Qed.

Example summarize_three_lowest :
  summarize three_lowest
  = Ok {| count := 3; total := 180000; average := 60000; median := 60000 |}.
Proof. vm_compute. reflexivity. Qed.

Lemma average_cost_truncated_mean_witness :
  average_cost three_lowest = Ok 60000.
Proof.
  apply (proj2 average_cost_truncated_mean three_lowest).
  - discriminate.
  - vm_compute. discriminate.
  - vm_compute. discriminate.
Defined.

Lemma median_cost_conventional_witness :
  median_cost three_lowest = Ok 60000.
Proof.
  apply (proj2 median_cost_conventional three_lowest).
  - discriminate.
  - repeat constructor; vm_compute; discriminate.
Defined.

(** C6 fails as stated: the float mean of the single compensation
    9007199254740993 is 9007199254740992. *)
Lemma average_cost_loses_a_dollar :
  average_cost past_53_bits = Ok 9007199254740992
  /\ average_cost past_53_bits
     <> Ok (Z.quot (exact_sum (map comp_usd past_53_bits))
                   (Z.of_nat (List.length past_53_bits))).
Proof.
  split; [vm_compute; reflexivity|].
  vm_compute. discriminate.
Qed.

(** C7 fails as stated: the float median of the single compensation
    9007199254740993 is 9007199254740992. *)
Lemma median_cost_loses_a_dollar :
  median_cost past_53_bits = Ok 9007199254740992
  /\ median_cost past_53_bits
     <> Ok (conventional_median (map comp_usd past_53_bits)).
Proof.
  split; [vm_compute; reflexivity|].
  vm_compute. discriminate.
Qed.

End SummaryFacts.

(** ** More on the loader *)

Module LoaderMore.

Import Float64 Pandas App Notions Examples LoaderFacts.

Local Open Scope string_scope.

Section WithParser.

Variable floatify : string -> numeral.

(** X1: with both columns in the file, [load_roster] raises pandas' cast
    error exactly when a line whose identifier starts with E has an
    infinite compensation, and returns a roster exactly when no such line
    exists; infinite values on other lines do no harm. *)
Theorem load_roster_refuses_infinite_pay (df : RawFrame) :
  has_column "comp_usd" (raw_columns df) = true ->
  has_column "employee_id" (raw_columns df) = true ->
  (load_roster floatify (Ok df)
   = Raise (IntCastingNaNError
              "Cannot convert non-finite values (NA or inf) to integer")
   <-> exists line b,
         In line (raw_records df)
         /\ is_employee (raw_columns df) line = true
         /\ to_float (floatify (cell (raw_columns df) "comp_usd" line))
            = Inf b)
  /\ ((exists roster, load_roster floatify (Ok df) = Ok roster)
      <-> forall line b,
            In line (raw_records df) ->
            is_employee (raw_columns df) line = true ->
            to_float (floatify (cell (raw_columns df) "comp_usd" line))
            <> Inf b).
Proof.
  intros Hcomp Hid. rewrite (load_roster_both_columns floatify df Hcomp Hid).
  set (cols := raw_columns df).
  set (fin := fun r => isfinite (to_float (floatify (cell cols "comp_usd" r)))).
  assert (Hall : forallb fin (filter (kept floatify cols) (raw_records df))
                 = true
                 <-> forall line b, In line (raw_records df) ->
                       is_employee cols line = true ->
                       to_float (floatify (cell cols "comp_usd" line))
                       <> Inf b).
  { rewrite forallb_forall. split.
    - intros H line b Hin Hemp Hinf.
      specialize (H line). rewrite filter_In in H. unfold fin in H.
      unfold kept, is_priced in H. rewrite Hemp, Hinf in H. simpl in H.
      specialize (H (conj Hin eq_refl)). discriminate.
    - intros H line Hin. apply filter_In in Hin. destruct Hin as [Hin Hk].
      unfold kept, is_priced in Hk. apply andb_true_iff in Hk.
      destruct Hk as [Hemp Hnan]. unfold fin.
      specialize (H line). destruct (to_float _) as [|b|q];
        [discriminate|exfalso; apply (H b); auto|reflexivity]. }
  destruct (forallb fin _) eqn:E.
  - split; split.
    + discriminate.
    + intros (line & b & Hin & Hemp & Hinf).
      exfalso. apply (proj1 Hall eq_refl line b); assumption.
    + intros _. apply Hall. reflexivity.
    + intros _. eexists. reflexivity.
  - split; split.
    + intros _.
      assert (Hex : exists line, In line (filter (kept floatify cols)
                                                 (raw_records df))
                                 /\ fin line = false).
      { clear Hall. induction (filter _ _) as [|x l IH]; [discriminate|].
        simpl in E. destruct (fin x) eqn:Ex.
        - destruct (IH E) as (line & Hl & Hf). exists line. simpl. auto.
        - exists x. simpl. auto. }
      destruct Hex as (line & Hin & Hf). apply filter_In in Hin.
      destruct Hin as [Hin Hk]. unfold kept, is_priced in Hk.
      apply andb_true_iff in Hk. destruct Hk as [Hemp Hnan].
      unfold fin in Hf. destruct (to_float _) as [|b|q] eqn:Ev;
        try discriminate.
      exists line, b. auto.
    + reflexivity.
    + intros [roster Hr]. discriminate.
    + intros H. apply Hall in H. discriminate.
Qed.

(** *** Footer lines *)

(** When the float read from an employee's cell casts back to the integer
    of the cell, the dtype line 37 chooses makes no difference to the
    [int64] stored for the cell. *)
Lemma stored_whatever_the_dtype (df : RawFrame) (s : string) :
  In s (map (cell (raw_columns df) "comp_usd") (raw_records df)) ->
  reads_exactly (floatify s) ->
  stored floatify df s = as_int (to_float (floatify s)).
Proof.
  intros Hs Hexact. unfold stored, comp_usd_column.
  pose proof (to_numeric_cases floatify
                (map (cell (raw_columns df) "comp_usd") (raw_records df)))
    as Hcases.
  destruct (to_numeric floatify _) as [v|v|v]; [| |reflexivity];
    destruct Hcases as [_ Hint]; rewrite Forall_forall in Hint;
    destruct (Hint s Hs) as (z & x & E & Hz);
    destruct (Hexact z x E) as [Hx Hrange];
    rewrite E; simpl;
    rewrite to_int64_in_range;
    rewrite (trunc_of_integer x z Hx); try exact Hrange;
    try reflexivity.
  unfold wrap64, is_int64 in *. rewrite Z.mod_small; lia.
Qed.

Lemma footer_is_filtered_out
    (cols : list string) (records footer : list (list string)) :
  (forall line, In line footer -> is_employee cols line = false) ->
  filter (kept floatify cols) (records ++ footer)
  = filter (kept floatify cols) records.
Proof.
  intros Hfooter. rewrite filter_app.
  replace (filter (kept floatify cols) footer) with (@nil (list string));
    [apply app_nil_r|].
  symmetry. induction footer as [|x l IH]; [reflexivity|].
  simpl. unfold kept at 1. rewrite (Hfooter x (or_introl eq_refl)). simpl.
  apply IH. intros; apply Hfooter; right; assumption.
Qed.

(** X2: lines whose identifier does not start with E, added at the end of
    the file, change nothing in what [load_roster] returns or raises, when
    every integer compensation of an employee's line is an [int64] that
    the float read from it holds exactly (as for every integer up to
    [2 ^ 53]).  Such lines can still turn the column into floats, which
    is why the condition is there. *)
Theorem footer_lines_do_not_matter
    (cols : list string) (records footer : list (list string)) :
  (forall line, In line footer -> is_employee cols line = false) ->
  (forall line, In line records -> is_employee cols line = true ->
     reads_exactly (floatify (cell cols "comp_usd" line))) ->
  load_roster floatify
    (Ok {| raw_columns := cols; raw_records := records ++ footer |})
  = load_roster floatify
      (Ok {| raw_columns := cols; raw_records := records |}).
Proof.
  intros Hfooter Hexact.
  destruct (has_column "comp_usd" cols) eqn:Hcomp;
    [|unfold load_roster; simpl; rewrite Hcomp; reflexivity].
  destruct (has_column "employee_id" cols) eqn:Hid;
    [|unfold load_roster; simpl; rewrite Hcomp, Hid; reflexivity].
  rewrite !(load_roster_both_columns floatify) by assumption. simpl.
  rewrite (footer_is_filtered_out cols records footer Hfooter).
  destruct (forallb _ _); [|reflexivity].
  do 2 f_equal. apply map_ext_in. intros line Hline.
  apply filter_In in Hline. destruct Hline as [Hin Hk].
  unfold kept in Hk. apply andb_true_iff in Hk. destruct Hk as [Hemp _].
  f_equal.
  rewrite !stored_whatever_the_dtype; try reflexivity;
    try (apply Hexact; assumption); simpl; apply in_map;
    [|apply in_or_app; left]; assumption.
Qed.

(** X3: a file with [comp_usd] but without the [employee_id] column makes
    line 39 raise [KeyError]; the run shows the page head and one error
    message with the quoted column name, and stops. *)
Theorem missing_employee_id_column_is_fatal
    (argsort : list Z -> list nat) (df : RawFrame) (ui : Inputs) :
  has_column "comp_usd" (raw_columns df) = true ->
  has_column "employee_id" (raw_columns df) = false ->
  load_roster floatify (Ok df) = Raise (KeyError "employee_id")
  /\ run floatify argsort (Ok df) ui
     = ((page_head ++ [st_error "Could not load roster: 'employee_id'"])%list,
        Stopped).
Proof.
  intros Hcomp Hid.
  assert (Hload : load_roster floatify (Ok df) = Raise (KeyError "employee_id")).
  { unfold load_roster; simpl. rewrite Hcomp, Hid. reflexivity. }
  split; [exact Hload|].
  unfold run. rewrite Hload. reflexivity.
Qed.

End WithParser.

Lemma load_roster_refuses_infinite_pay_witness :
  load_roster with_infinity (Ok boundless)
  = Raise (IntCastingNaNError
             "Cannot convert non-finite values (NA or inf) to integer").
Proof.
  apply (proj1 (load_roster_refuses_infinite_pay with_infinity boundless
                  eq_refl eq_refl)).
  exists ["E2"; "inf"], false. repeat split. simpl. auto.
Defined.

Lemma footer_lines_do_not_matter_witness :
  load_roster with_infinity
    (Ok {| raw_columns := ["employee_id"; "comp_usd"];
           raw_records := two_employees ++ summary_lines |})
  = load_roster with_infinity
      (Ok {| raw_columns := ["employee_id"; "comp_usd"];
             raw_records := two_employees |}).
Proof.
  apply (footer_lines_do_not_matter with_infinity).
  - intros line Hin. simpl in Hin.
    destruct Hin as [<-|[<-|[<-|[]]]]; reflexivity.
  - intros line Hin _ z x E. simpl in Hin.
    destruct Hin as [<-|[<-|[]]]; vm_compute in E; injection E as <- <-;
      (split; [reflexivity|unfold is_int64; lia]).
Defined.

(** Without that condition a footer line does matter: alone in the file,
    the employee paid [2 ^ 53 + 1] is loaded with that pay from a column
    of integers; a footer line without a number turns the column into
    floats, and the employee is loaded with one dollar less. *)
Example footer_line_changes_a_compensation :
  load_roster Numpy.decimal_to_numeric
    (Ok {| raw_columns := ["employee_id"; "comp_usd"];
           raw_records := [ ["E1"; "9007199254740993"] ] |})
  = Ok {| columns := ["employee_id"; "comp_usd"];
          rows := [ {| cells := ["E1"; "9007199254740993"];
                       comp_usd := 9007199254740993 |} ] |}
  /\ load_roster Numpy.decimal_to_numeric
       (Ok {| raw_columns := ["employee_id"; "comp_usd"];
              raw_records := [ ["E1"; "9007199254740993"];
                               ["TOTAL"; "n/a"] ] |})
     = Ok {| columns := ["employee_id"; "comp_usd"];
             rows := [ {| cells := ["E1"; "9007199254740993"];
                          comp_usd := 9007199254740992 |} ] |}.
Proof. split; vm_compute; reflexivity. Qed.

Lemma missing_employee_id_column_is_fatal_witness :
  load_roster Numpy.decimal_to_numeric (Ok no_identifier)
  = Raise (KeyError "employee_id").
Proof.
  refine (proj1 (missing_employee_id_column_is_fatal
                   Numpy.decimal_to_numeric Numpy.argsort_stable
                   no_identifier
                   {| target_headcount := 1%Z;
                      priority_option := "Highest compensation first";
                      accent_choice := "Teal" |} _ _)); reflexivity.
Defined.

End LoaderMore.


(** ** More on the selection *)

Module SelectionMore.

Import Pandas App Notions Examples SelectionFacts.

(** *** Sorted lists of integers *)

Lemma StronglySorted_app_inv {A : Type} (R : A -> A -> Prop) (l1 l2 : list A) :
  StronglySorted R (l1 ++ l2) ->
  forall x y, In x l1 -> In y l2 -> R x y.
Proof.
  induction l1 as [|a l1 IH]; simpl; intros H x y Hx Hy; [contradiction|].
  inversion H as [|? ? Hl Ha]; subst.
  destruct Hx as [<-|Hx].
  - rewrite Forall_forall in Ha. apply Ha, in_or_app. right. exact Hy.
  - apply IH; assumption.
Qed.

(** A permutation of a sorted list that is sorted is the same list. *)
Lemma sorted_unique (l1 l2 : list Z) :
  StronglySorted Z.le l1 -> StronglySorted Z.le l2 ->
  Permutation l1 l2 -> l1 = l2.
Proof.
  intros H1. revert l2. induction H1 as [|x l1 Hl1 IH Hx]; intros l2 H2 Hp.
  - apply Permutation_nil in Hp. congruence.
  - destruct H2 as [|y l2 Hl2 Hy].
    + apply Permutation_sym, Permutation_nil in Hp. discriminate.
    + rewrite Forall_forall in Hx, Hy.
      assert (x = y).
      { assert (Hxin : In x (y :: l2))
          by (apply (Permutation_in _ Hp); left; reflexivity).
        assert (Hyin : In y (x :: l1))
          by (apply (Permutation_in _ (Permutation_sym Hp)); left; reflexivity).
        destruct Hxin as [E|Hxin]; [congruence|].
        destruct Hyin as [E|Hyin]; [congruence|].
        specialize (Hx _ Hyin). specialize (Hy _ Hxin). lia. }
      subst y. f_equal. apply IH; [exact Hl2|].
      apply Permutation_cons_inv in Hp. exact Hp.
Qed.

Lemma exact_sum_app (l1 l2 : list Z) :
  exact_sum (l1 ++ l2) = (exact_sum l1 + exact_sum l2)%Z.
Proof. induction l1 as [|x l1 IH]; simpl; [reflexivity|]. rewrite IH. lia. Qed.

(** The first values of a sorted list add up to no more than any as many
    values taken from it. *)
Lemma smallest_first (L : list Z) :
  StronglySorted Z.le L ->
  forall S T, Permutation (S ++ T) L ->
  (exact_sum (firstn (List.length S) L) <= exact_sum S)%Z.
Proof.
  induction 1 as [|x L HL IH Hx]; intros S T Hp.
  - apply Permutation_sym, Permutation_nil, app_eq_nil in Hp.
    destruct Hp as [-> _]. simpl. lia.
  - destruct S as [|y S0]; [simpl; lia|].
    assert (Hin : In x ((y :: S0) ++ T))
      by (apply (Permutation_in _ (Permutation_sym Hp)); left; reflexivity).
    apply in_app_or in Hin. destruct Hin as [Hin|Hin].
    + apply in_split in Hin. destruct Hin as (S1 & S2 & HS).
      assert (Hp' : Permutation ((S1 ++ S2) ++ T) L).
      { rewrite HS, <- app_assoc in Hp. simpl in Hp.
        apply Permutation_sym, Permutation_cons_app_inv in Hp.
        rewrite app_assoc in Hp. apply Permutation_sym. exact Hp. }
      specialize (IH (S1 ++ S2) T Hp').
      rewrite HS, !length_app in *. simpl List.length.
      rewrite Nat.add_succ_r. simpl firstn. simpl exact_sum.
      rewrite exact_sum_app in *. simpl exact_sum. lia.
    + apply in_split in Hin. destruct Hin as (T1 & T2 & HT).
      assert (Hp' : Permutation (S0 ++ (y :: T1 ++ T2)) L).
      { rewrite HT in Hp. simpl in Hp.
        assert (Hmid : Permutation (y :: S0 ++ T1 ++ x :: T2)
                                   (x :: S0 ++ y :: T1 ++ T2)).
        { apply Permutation_trans with (x :: y :: S0 ++ T1 ++ T2).
          - replace (y :: S0 ++ T1 ++ x :: T2)
              with ((y :: S0 ++ T1) ++ x :: T2)
              by (simpl; rewrite <- app_assoc; reflexivity).
            replace (x :: y :: S0 ++ T1 ++ T2)
              with (x :: (y :: S0 ++ T1) ++ T2)
              by (simpl; rewrite <- app_assoc; reflexivity).
            apply Permutation_sym, Permutation_middle.
          - apply perm_skip. apply Permutation_middle. }
        apply Permutation_cons_inv with (a := x).
        apply Permutation_trans with (y :: S0 ++ T1 ++ x :: T2);
          [apply Permutation_sym; exact Hmid|exact Hp]. }
      specialize (IH S0 _ Hp').
      assert (Hy : (x <= y)%Z).
      { rewrite Forall_forall in Hx. apply Hx.
        apply (Permutation_in _ Hp'), in_or_app. right. left. reflexivity. }
      simpl. lia.
Qed.

Lemma exact_sum_opp (l : list Z) :
  exact_sum (map Z.opp l) = (- exact_sum l)%Z.
Proof. induction l as [|x l IH]; simpl; [reflexivity|]. rewrite IH. lia. Qed.

Lemma firstn_length_firstn {A : Type} (k : nat) (l : list A) :
  firstn (List.length (firstn k l)) l = firstn k l.
Proof.
  rewrite length_firstn. destruct (Nat.le_ge_cases k (List.length l)).
  - rewrite Nat.min_l by assumption. reflexivity.
  - rewrite Nat.min_r by assumption.
    rewrite firstn_all, firstn_all2 by assumption. reflexivity.
Qed.

(** *** The selection under numpy's promise *)

Section DefaultSort.

Variable argsort : list Z -> list nat.

Hypothesis argsort_perm :
  forall v, Permutation (argsort v) (seq 0 (List.length v)).

Hypothesis argsort_sorted :
  forall v, Sorted Z.le (map (key_at v) (argsort v)).

(** Sorting moves rows and neither drops nor repeats one. *)
Lemma sort_values_perm (roster : list (row Z)) (ascending : bool) :
  Permutation (sort_values argsort roster ascending) roster.
Proof.
  unfold sort_values.
  pose proof (nargsort_perm argsort argsort_perm
                (map comp_usd roster) ascending) as Hp.
  rewrite length_map in Hp.
  apply Permutation_trans with (take (seq 0 (List.length roster)) roster).
  - unfold take. apply Permutation_flat_map. exact Hp.
  - rewrite take_seq. apply Permutation_refl.
Qed.

Lemma sort_values_sorted (roster : list (row Z)) :
  StronglySorted Z.le (map comp_usd (sort_values argsort roster true))
  /\ StronglySorted (fun x y => (y <= x)%Z)
                    (map comp_usd (sort_values argsort roster false)).
Proof.
  rewrite !(comps_of_sort_values argsort argsort_perm).
  rewrite !(keys_along_nargsort argsort argsort_perm).
  split.
  - apply (sorted_along_argsort argsort argsort_sorted).
  - apply StronglySorted_rev, (sorted_along_argsort argsort argsort_sorted).
Qed.

(** X4: the selection and the rows left out make up the roster, row for
    row; lowest first, no selected row is paid more than a row left out,
    and highest first, none is paid less. *)
Theorem select_takes_the_extremes
    (roster : list (row Z)) (N : Z) (ascending : bool) :
  exists rest,
    Permutation (select argsort roster N ascending ++ rest) roster
    /\ forall r r',
         In r (select argsort roster N ascending) -> In r' rest ->
         if ascending then (comp_usd r <= comp_usd r')%Z
         else (comp_usd r' <= comp_usd r)%Z.
Proof.
  unfold select.
  destruct (head_is_firstn N (sort_values argsort roster ascending))
    as [k ->].
  exists (skipn k (sort_values argsort roster ascending)). split.
  - rewrite firstn_skipn. apply sort_values_perm.
  - intros r r' Hr Hr'.
    destruct (sort_values_sorted roster) as [Hup Hdown].
    destruct ascending.
    + apply (proj2 (StronglySorted_map Z.le comp_usd _)) in Hup.
      rewrite <- (firstn_skipn k (sort_values argsort roster true)) in Hup.
      exact (StronglySorted_app_inv _ _ _ Hup r r' Hr Hr').
    + apply (proj2 (StronglySorted_map (fun x y => (y <= x)%Z) comp_usd _))
        in Hdown.
      rewrite <- (firstn_skipn k (sort_values argsort roster false)) in Hdown.
      exact (StronglySorted_app_inv _ _ _ Hdown r r' Hr Hr').
Qed.

(** X5: a target count of at least the size of the roster selects every
    row of the roster, each once. *)
Theorem select_everyone
    (roster : list (row Z)) (N : Z) (ascending : bool) :
  (Z.of_nat (List.length roster) <= N)%Z ->
  Permutation (select argsort roster N ascending) roster.
Proof.
  intros HN. unfold select, head.
  destruct (0 <=? N)%Z eqn:E; [|lia].
  rewrite firstn_all2.
  - apply sort_values_perm.
  - rewrite (Permutation_length (sort_values_perm roster ascending)). lia.
Qed.

(** X6: lowest first, the selection costs no more than any as many rows
    chosen from the roster; highest first, it costs no less. *)
Theorem lowest_first_is_cheapest
    (roster : list (row Z)) (N : Z) (chosen : list (row Z)) :
  chosen_from chosen roster ->
  (List.length chosen = List.length (select argsort roster N true) ->
   (payroll (select argsort roster N true) <= payroll chosen)%Z)
  /\ (List.length chosen = List.length (select argsort roster N false) ->
      (payroll chosen <= payroll (select argsort roster N false))%Z).
Proof.
  intros [rest Hrest]. unfold payroll, select.
  destruct (sort_values_sorted roster) as [Hup Hdown].
  split; intros Hlen.
  - destruct (head_is_firstn N (sort_values argsort roster true)) as [k Hk].
    rewrite Hk in *. rewrite <- firstn_length_firstn, <- Hlen.
    rewrite <- firstn_map, <- (length_map comp_usd chosen).
    apply (smallest_first _ Hup _ (map comp_usd rest)).
    rewrite <- map_app. apply Permutation_map.
    apply (Permutation_trans Hrest).
    apply Permutation_sym, sort_values_perm.
  - destruct (head_is_firstn N (sort_values argsort roster false)) as [k Hk].
    rewrite Hk in *. rewrite <- firstn_length_firstn, <- Hlen.
    rewrite <- firstn_map, <- (length_map comp_usd chosen).
    rewrite <- (length_map Z.opp (map comp_usd chosen)).
    assert (Hneg : StronglySorted Z.le
                     (map Z.opp
                        (map comp_usd (sort_values argsort roster false)))).
    { apply (proj1 (StronglySorted_map Z.le Z.opp _)).
      apply (StronglySorted_weaken (fun x y => (y <= x)%Z));
        [intros; lia|exact Hdown]. }
    pose proof (smallest_first _ Hneg (map Z.opp (map comp_usd chosen))
                  (map Z.opp (map comp_usd rest))) as H.
    rewrite firstn_map, !exact_sum_opp in H.
    assert (Hp : Permutation
                   (map Z.opp (map comp_usd chosen)
                    ++ map Z.opp (map comp_usd rest))
                   (map Z.opp
                      (map comp_usd (sort_values argsort roster false)))).
    { rewrite <- !map_app. do 2 apply Permutation_map.
      apply (Permutation_trans Hrest).
      apply Permutation_sym, sort_values_perm. }
    specialize (H Hp). lia.
Qed.

(** X7: with every row selected, the compensations highest first are the
    compensations lowest first read backwards. *)
Theorem highest_first_is_lowest_first_reversed
    (roster : list (row Z)) (N : Z) :
  (Z.of_nat (List.length roster) <= N)%Z ->
  map comp_usd (select argsort roster N false)
  = rev (map comp_usd (select argsort roster N true)).
Proof.
  intros HN. unfold select, head.
  destruct (0 <=? N)%Z eqn:E; [|lia].
  rewrite !firstn_all2
    by (rewrite (Permutation_length (sort_values_perm roster _)); lia).
  destruct (sort_values_sorted roster) as [Hup Hdown].
  rewrite <- (rev_involutive (map comp_usd (sort_values argsort roster false))).
  f_equal. apply sorted_unique.
  - apply (StronglySorted_rev (fun x y => (y <= x)%Z)). exact Hdown.
  - exact Hup.
  - apply Permutation_trans
      with (map comp_usd (sort_values argsort roster false));
      [apply Permutation_sym, Permutation_rev|].
    apply Permutation_map.
    apply (Permutation_trans (sort_values_perm roster false)).
    apply Permutation_sym, sort_values_perm.
Qed.

End DefaultSort.

(** X20: moving the slider down from [M] to [N] keeps the first [N] rows
    of the selection and drops the rest, whatever sort is applied. *)
Theorem select_is_a_prefix
    (argsort : list Z -> list nat)
    (roster : list (row Z)) (N M : Z) (ascending : bool) :
  (0 <= N <= M)%Z ->
  select argsort roster N ascending
  = firstn (Z.to_nat N) (select argsort roster M ascending).
Proof.
  intros H. unfold select, head.
  destruct (0 <=? N)%Z eqn:EN; [|lia].
  destruct (0 <=? M)%Z eqn:EM; [|lia].
  rewrite firstn_firstn, Nat.min_l by lia. reflexivity.
Qed.

Lemma select_is_a_prefix_witness :
  select Numpy.argsort_quicksort staff 2 true
  = firstn 2 (select Numpy.argsort_quicksort staff 4 true).
Proof.
  apply (select_is_a_prefix Numpy.argsort_quicksort staff 2 4 true). lia.
Defined.

(** *** Runs *)

Lemma select_takes_the_extremes_witness :
  exists rest,
    Permutation (select Numpy.argsort_stable staff 2 true ++ rest) staff
    /\ forall r r',
         In r (select Numpy.argsort_stable staff 2 true) -> In r' rest ->
         (comp_usd r <= comp_usd r')%Z.
Proof.
  apply (select_takes_the_extremes Numpy.argsort_stable
           NumpyFacts.argsort_stable_perm NumpyFacts.argsort_stable_sorted
           staff 2 true).
Defined.

Lemma select_everyone_witness :
  Permutation (select Numpy.argsort_stable staff 7 false) staff.
Proof.
  apply (select_everyone Numpy.argsort_stable
           NumpyFacts.argsort_stable_perm staff 7 false).
  simpl. lia.
Defined.

Lemma first_two_chosen_from_staff :
  chosen_from [employee "E1" 70000; employee "E2" 50000] staff.
Proof.
  exists [employee "E3" 70000; employee "E4" 50000; employee "E5" 90000].
  apply Permutation_refl.
Qed.

Lemma lowest_first_is_cheapest_witness :
  (payroll (select Numpy.argsort_stable staff 2 true)
   <= payroll [employee "E1" 70000; employee "E2" 50000])%Z.
Proof.
  apply (proj1 (lowest_first_is_cheapest Numpy.argsort_stable
                  NumpyFacts.argsort_stable_perm
                  NumpyFacts.argsort_stable_sorted staff 2
                  [employee "E1" 70000; employee "E2" 50000]
                  first_two_chosen_from_staff)).
  reflexivity.
Defined.

Lemma highest_first_is_lowest_first_reversed_witness :
  map comp_usd (select Numpy.argsort_stable staff 5 false)
  = rev (map comp_usd (select Numpy.argsort_stable staff 5 true)).
Proof.
  apply (highest_first_is_lowest_first_reversed Numpy.argsort_stable
           NumpyFacts.argsort_stable_perm NumpyFacts.argsort_stable_sorted
           staff 5).
  simpl. lia.
Defined.

End SelectionMore.

(** ** More on the summary *)

Module SummaryMore.

Import Float64 Pandas App Notions Examples Float64Facts SummaryFacts.
Import SelectionFacts SelectionMore.

Lemma fold_left_add (l : list Z) (a : Z) :
  fold_left Z.add l a = (a + exact_sum l)%Z.
Proof.
  revert a. induction l as [|x l IH]; intros a; simpl; [lia|].
  rewrite IH. lia.
Qed.

Lemma exact_sum_le_abs_sum (l : list Z) : (Z.abs (exact_sum l) <= abs_sum l)%Z.
Proof. induction l as [|x l IH]; simpl; lia. Qed.

Lemma element_le_abs_sum (l : list Z) (x : Z) :
  In x l -> (Z.abs x <= abs_sum l)%Z.
Proof.
  induction l as [|y l IH]; simpl; [contradiction|].
  pose proof (abs_sum_nonneg l) as Hl. intros [->|Hx]; [lia|].
  specialize (IH Hx). lia.
Qed.

Lemma total_cost_wraps (selected : list (row Z)) :
  total_cost selected = wrap64 (payroll selected).
Proof.
  unfold total_cost, empty, payroll, series_sum.
  destruct selected as [|r rs]; [reflexivity|].
  change (negb (List.length (r :: rs) =? 0)%nat) with true. cbv iota.
  rewrite fold_left_add. reflexivity.
Qed.

Lemma wrap64_small (z : Z) : (- 2 ^ 63 <= z < 2 ^ 63)%Z -> wrap64 z = z.
Proof. intros H. unfold wrap64. rewrite Z.mod_small by lia. lia. Qed.

(** X8: the total is the exact sum of the selected compensations wrapped
    around to 64 bits, and is the exact sum whenever that sum is an
    [int64]. *)
Theorem total_cost_exact_within_int64 (selected : list (row Z)) :
  total_cost selected = wrap64 (payroll selected)
  /\ ((- 2 ^ 63 <= payroll selected < 2 ^ 63)%Z ->
      total_cost selected = payroll selected).
Proof.
  split; [apply total_cost_wraps|].
  intros Hrange. rewrite total_cost_wraps. apply wrap64_small, Hrange.
Qed.

Lemma total_cost_exact_within_int64_witness :
  total_cost three_lowest = payroll three_lowest.
Proof.
  apply (proj2 (total_cost_exact_within_int64 three_lowest)).
  vm_compute. split; [discriminate|reflexivity].
Defined.

Lemma summarize_within_bounds (selected : list (row Z)) :
  selected <> [] ->
  (Z.of_nat (List.length selected) <= 2 ^ 53)%Z ->
  (abs_sum (map comp_usd selected) <= 2 ^ 52)%Z ->
  summarize selected
  = Ok {| count := Z.of_nat (List.length selected);
          total := payroll selected;
          average := Z.quot (payroll selected)
                            (Z.of_nat (List.length selected));
          median := conventional_median (map comp_usd selected) |}.
Proof.
  intros Hne Hn Hb.
  assert (H53 : (abs_sum (map comp_usd selected) <= 2 ^ 53)%Z)
    by (change (2 ^ 53)%Z with (2 * 2 ^ 52)%Z; lia).
  pose proof (exact_sum_le_abs_sum (map comp_usd selected)) as Hsum.
  unfold summarize.
  rewrite total_cost_wraps, wrap64_small
    by (unfold payroll;
        assert (2 ^ 52 < 2 ^ 63)%Z by reflexivity; lia).
  unfold average_cost, median_cost, empty.
  destruct selected as [|r rs]; [congruence|].
  change (negb (List.length (r :: rs) =? 0)%nat) with true. cbv iota.
  rewrite series_mean_truncated, series_median_conventional;
    try discriminate; try assumption.
  - simpl. rewrite length_map. reflexivity.
  - apply Forall_forall. intros x Hx.
    pose proof (element_le_abs_sum _ _ Hx). lia.
  - rewrite length_map. exact Hn.
Qed.

(** X9: for a non-empty selection of at most [2 ^ 53] rows whose
    compensations add up, in absolute value, to at most [2 ^ 52], the
    summary raises nothing and holds the number of rows, the exact sum,
    the sum divided by the number of rows and truncated toward zero, and
    the conventional median truncated toward zero. *)
Theorem summarize_exact (selected : list (row Z)) :
  selected <> [] ->
  (Z.of_nat (List.length selected) <= 2 ^ 53)%Z ->
  (abs_sum (map comp_usd selected) <= 2 ^ 52)%Z ->
  summarize selected
  = Ok {| count := Z.of_nat (List.length selected);
          total := payroll selected;
          average := Z.quot (payroll selected)
                            (Z.of_nat (List.length selected));
          median := conventional_median (map comp_usd selected) |}.
Proof. exact (summarize_within_bounds selected). Qed.

Lemma summarize_exact_witness :
  summarize three_lowest
  = Ok {| count := 3; total := 180000; average := 60000; median := 60000 |}.
Proof.
  apply (summarize_exact three_lowest).
  - discriminate.
  - vm_compute. discriminate.
  - vm_compute. discriminate.
Defined.

(** *** Between the lowest and the highest pay *)

Lemma quot_between (S n lo hi : Z) :
  (0 < n)%Z -> (n * lo <= S <= n * hi)%Z -> (lo <= Z.quot S n <= hi)%Z.
Proof.
  intros Hn HS. destruct (Z.le_gt_cases 0 S) as [H0|H0].
  - rewrite Z.quot_div_nonneg by lia.
    split; [apply Z.div_le_lower_bound|apply Z.div_le_upper_bound]; lia.
  - assert (E : Z.quot S n = (- ((- S) / n))%Z).
    { rewrite <- Z.quot_div_nonneg, Z.quot_opp_l by lia. lia. }
    rewrite E.
    assert (((- S) / n <= - lo)%Z) by (apply Z.div_le_upper_bound; lia).
    assert ((- hi <= (- S) / n)%Z) by (apply Z.div_le_lower_bound; lia).
    lia.
Qed.

Lemma exact_sum_between (l : list Z) (lo hi : Z) :
  (forall x, In x l -> (lo <= x <= hi)%Z) ->
  (Z.of_nat (List.length l) * lo <= exact_sum l
   <= Z.of_nat (List.length l) * hi)%Z.
Proof.
  induction l as [|x l IH]; intros H; [simpl; lia|].
  specialize (IH (fun y Hy => H y (or_intror Hy))).
  pose proof (H x (or_introl eq_refl)).
  cbn [List.length exact_sum fold_right]. fold (exact_sum l). lia.
Qed.

Lemma middle_between (l : list Z) (lo hi : Z) :
  l <> [] ->
  (forall x, In x l -> (lo <= x <= hi)%Z) ->
  (lo <= middle l <= hi)%Z.
Proof.
  intros Hne H. unfold middle.
  assert (Hpos : (0 < List.length l)%nat) by (destruct l; [congruence|simpl; lia]).
  set (n := List.length l) in *.
  destruct (Nat.odd n) eqn:Eodd.
  - apply H, nth_In. fold n. apply Nat.div_lt; lia.
  - assert (Hn2 : (2 <= n)%nat).
    { destruct n as [|[|n']]; [lia|discriminate|lia]. }
    assert (Hk : (n / 2 < n)%nat) by (apply Nat.div_lt; lia).
    pose proof (H _ (nth_In l 0%Z Hk)).
    pose proof (H _ (nth_In l 0%Z (ltac:(lia) : (n / 2 - 1 < n)%nat))).
    apply quot_between; lia.
Qed.

(** X10: for a non-empty selection of at most [2 ^ 53] rows whose
    compensations add up, in absolute value, to at most [2 ^ 52], the
    average and the median shown lie between the lowest and the highest
    selected compensation. *)
Theorem statistics_within_pay_range
    (selected : list (row Z)) (lo hi : Z) :
  selected <> [] ->
  (Z.of_nat (List.length selected) <= 2 ^ 53)%Z ->
  (abs_sum (map comp_usd selected) <= 2 ^ 52)%Z ->
  (forall r, In r selected -> (lo <= comp_usd r <= hi)%Z) ->
  exists mean med,
    average_cost selected = Ok mean /\ median_cost selected = Ok med
    /\ (lo <= mean <= hi)%Z /\ (lo <= med <= hi)%Z.
Proof.
  intros Hne Hn Hb Hrange.
  assert (Hcomps : forall x, In x (map comp_usd selected) -> (lo <= x <= hi)%Z).
  { intros x Hx. apply in_map_iff in Hx. destruct Hx as (r & <- & Hr).
    apply Hrange, Hr. }
  assert (Hne' : map comp_usd selected <> [])
    by (destruct selected; [congruence|discriminate]).
  exists (Z.quot (exact_sum (map comp_usd selected))
                 (Z.of_nat (List.length (map comp_usd selected)))),
         (conventional_median (map comp_usd selected)).
  unfold average_cost, median_cost, empty.
  destruct selected as [|r rs] eqn:Esel; [congruence|]. rewrite <- Esel in *.
  replace (negb (List.length selected =? 0)%nat) with true
    by (rewrite Esel; reflexivity).
  split; [|split; [|split]].
  - apply series_mean_truncated; [exact Hne'|rewrite length_map; exact Hn|].
    change (2 ^ 53)%Z with (2 * 2 ^ 52)%Z. lia.
  - apply series_median_conventional; [exact Hne'|].
    apply Forall_forall. intros x Hx.
    pose proof (element_le_abs_sum _ _ Hx). lia.
  - apply quot_between.
    + rewrite length_map, Esel. simpl. lia.
    + apply exact_sum_between, Hcomps.
  - unfold conventional_median. apply (middle_between (sorted Z.leb _)).
    + intros E. apply Hne'.
      apply Permutation_nil. rewrite <- E.
      apply NumpyFacts.sorted_perm.
    + intros x Hx. apply Hcomps.
      apply (Permutation_in _ (NumpyFacts.sorted_perm Z.leb _)), Hx.
Qed.

Lemma statistics_within_pay_range_witness :
  exists mean med,
    average_cost three_lowest = Ok mean /\ median_cost three_lowest = Ok med
    /\ (50000 <= mean <= 70000)%Z /\ (50000 <= med <= 70000)%Z.
Proof.
  apply (statistics_within_pay_range three_lowest 50000 70000).
  - discriminate.
  - vm_compute. discriminate.
  - vm_compute. discriminate.
  - intros r Hr. simpl in Hr.
    destruct Hr as [<-|[<-|[<-|[]]]]; simpl; lia.
Defined.

(** *** The median of the table as it is shown *)

Lemma insert_sorted_sorted (x : Z) (l : list Z) :
  StronglySorted Z.le l -> StronglySorted Z.le (insert_sorted Z.leb x l).
Proof.
  induction 1 as [|y l Hl IH Hy]; simpl.
  - constructor; constructor.
  - destruct (Z.leb_spec x y) as [Hxy|Hxy].
    + constructor; [constructor; assumption|].
      constructor; [exact Hxy|].
      rewrite Forall_forall in *. intros z Hz. specialize (Hy z Hz). lia.
    + constructor; [exact IH|].
      rewrite Forall_forall in *. intros z Hz.
      apply (Permutation_in _ (NumpyFacts.insert_sorted_perm Z.leb x l)) in Hz.
      destruct Hz as [<-|Hz]; [lia|apply Hy, Hz].
Qed.

Lemma sorted_sorted (l : list Z) : StronglySorted Z.le (sorted Z.leb l).
Proof.
  induction l as [|x l IH]; simpl; [constructor|].
  apply insert_sorted_sorted, IH.
Qed.

Lemma middle_rev (l : list Z) : middle (rev l) = middle l.
Proof.
  unfold middle. rewrite length_rev. set (n := List.length l).
  destruct (Nat.eq_dec n 0) as [E0|E0].
  - assert (l = []) by (apply length_zero_iff_nil; exact E0). subst l.
    reflexivity.
  - destruct (Nat.odd n) eqn:Eodd.
    + apply Nat.odd_spec in Eodd. destruct Eodd as [m Hm].
      assert (Hdiv : (n / 2 = m)%nat)
        by (symmetry; apply (Nat.div_unique n 2 m 1); lia).
      rewrite Hdiv, rev_nth by (fold n; lia).
      fold n. f_equal. lia.
    + assert (Heven : Nat.even n = true)
        by (rewrite <- Nat.negb_odd, Eodd; reflexivity).
      apply Nat.even_spec in Heven. destruct Heven as [m Hm].
      assert (Hdiv : (n / 2 = m)%nat)
        by (symmetry; apply (Nat.div_unique n 2 m 0); lia).
      rewrite Hdiv, !rev_nth by (fold n; lia).
      fold n.
      replace (n - S (m - 1))%nat with m by lia.
      replace (n - S m)%nat with (m - 1)%nat by lia.
      f_equal. lia.
Qed.

Section DefaultSort.

Variable argsort : list Z -> list nat.

Hypothesis argsort_perm :
  forall v, Permutation (argsort v) (seq 0 (List.length v)).

Hypothesis argsort_sorted :
  forall v, Sorted Z.le (map (key_at v) (argsort v)).

Lemma select_subset (roster : list (row Z)) (N : Z) (ascending : bool) (r : row Z) :
  In r (select argsort roster N ascending) -> In r roster.
Proof.
  unfold select. intros Hr.
  destruct (head_is_firstn N (sort_values argsort roster ascending))
    as [k Hk].
  rewrite Hk in Hr.
  apply (Permutation_in _ (sort_values_perm argsort argsort_perm
                             roster ascending)).
  rewrite <- (firstn_skipn k _). apply in_or_app. left. exact Hr.
Qed.

(** X11: the median shown for the selection is the middle of the selected
    compensations in the order the table shows them, in either direction:
    the middle row's for an odd number of rows, the mean of the two middle
    rows' truncated toward zero for an even number, when no compensation
    of the roster exceeds [2 ^ 52] in absolute value. *)
Theorem median_is_middle_of_table
    (roster : list (row Z)) (N : Z) (ascending : bool) :
  select argsort roster N ascending <> [] ->
  Forall (fun r => (Z.abs (comp_usd r) <= 2 ^ 52)%Z) roster ->
  median_cost (select argsort roster N ascending)
  = Ok (middle (map comp_usd (select argsort roster N ascending))).
Proof.
  intros Hne Hb.
  set (selected := select argsort roster N ascending) in *.
  assert (Hcomps : Forall (fun x => (Z.abs x <= 2 ^ 52)%Z)
                          (map comp_usd selected)).
  { apply Forall_map, Forall_forall. intros r Hr.
    rewrite Forall_forall in Hb. apply Hb.
    apply (select_subset roster N ascending), Hr. }
  assert (Hne' : map comp_usd selected <> [])
    by (destruct selected; [congruence|discriminate]).
  unfold median_cost, empty.
  destruct selected as [|r rs] eqn:Esel; [congruence|]. rewrite <- Esel in *.
  replace (negb (List.length selected =? 0)%nat) with true
    by (rewrite Esel; reflexivity).
  rewrite (series_median_conventional _ Hne' Hcomps). f_equal.
  unfold conventional_median. fold (middle (sorted Z.leb (map comp_usd selected))).
  assert (Hsorted : sorted Z.leb (map comp_usd selected) = map comp_usd selected
                    \/ sorted Z.leb (map comp_usd selected)
                       = rev (map comp_usd selected)).
  { destruct (sort_values_sorted argsort argsort_perm argsort_sorted roster)
      as [Hup Hdown].
    unfold selected, select.
    destruct (head_is_firstn N (sort_values argsort roster ascending))
      as [k ->].
    rewrite <- firstn_map.
    destruct ascending; [left|right]; apply sorted_unique;
      try apply sorted_sorted.
    - apply StronglySorted_firstn, Hup.
    - apply NumpyFacts.sorted_perm.
    - apply (StronglySorted_rev (fun x y => (y <= x)%Z)).
      apply StronglySorted_firstn, Hdown.
    - apply (Permutation_trans (NumpyFacts.sorted_perm Z.leb _)).
      apply Permutation_rev. }
  destruct Hsorted as [->| ->]; [reflexivity|apply middle_rev].
Qed.

End DefaultSort.

Lemma median_is_middle_of_table_witness :
  median_cost (select Numpy.argsort_stable staff 4 false)
  = Ok (middle (map comp_usd (select Numpy.argsort_stable staff 4 false))).
Proof.
  apply (median_is_middle_of_table Numpy.argsort_stable
           NumpyFacts.argsort_stable_perm NumpyFacts.argsort_stable_sorted
           staff 4 false).
  - vm_compute. discriminate.
  - repeat constructor; vm_compute; discriminate.
Defined.

(** *** Whatever sort numpy applies *)

Lemma summarize_of_pay (s1 s2 : list (row Z)) :
  map comp_usd s1 = map comp_usd s2 -> summarize s1 = summarize s2.
Proof.
  intros H.
  assert (Hlen : List.length s1 = List.length s2).
  { rewrite <- (length_map comp_usd s1), H. apply length_map. }
  unfold summarize, total_cost, average_cost, median_cost, empty.
  rewrite H, Hlen. reflexivity.
Qed.

Section TwoSorts.

Variables argsort1 argsort2 : list Z -> list nat.

Hypothesis argsort1_perm :
  forall v, Permutation (argsort1 v) (seq 0 (List.length v)).
Hypothesis argsort1_sorted :
  forall v, Sorted Z.le (map (key_at v) (argsort1 v)).
Hypothesis argsort2_perm :
  forall v, Permutation (argsort2 v) (seq 0 (List.length v)).
Hypothesis argsort2_sorted :
  forall v, Sorted Z.le (map (key_at v) (argsort2 v)).

Lemma sorted_pay_is_the_same (roster : list (row Z)) (ascending : bool) :
  map comp_usd (sort_values argsort1 roster ascending)
  = map comp_usd (sort_values argsort2 roster ascending).
Proof.
  destruct (sort_values_sorted argsort1 argsort1_perm argsort1_sorted roster)
    as [Hup1 Hdown1].
  destruct (sort_values_sorted argsort2 argsort2_perm argsort2_sorted roster)
    as [Hup2 Hdown2].
  assert (Hp : Permutation
                 (map comp_usd (sort_values argsort1 roster ascending))
                 (map comp_usd (sort_values argsort2 roster ascending))).
  { apply Permutation_map.
    apply (Permutation_trans
             (sort_values_perm argsort1 argsort1_perm roster ascending)).
    apply Permutation_sym, sort_values_perm, argsort2_perm. }
  destruct ascending.
  - apply sorted_unique; assumption.
  - rewrite <- (rev_involutive (map comp_usd (sort_values argsort1 roster false))).
    rewrite <- (rev_involutive (map comp_usd (sort_values argsort2 roster false))).
    f_equal. apply sorted_unique.
    + apply (StronglySorted_rev (fun x y => (y <= x)%Z)), Hdown1.
    + apply (StronglySorted_rev (fun x y => (y <= x)%Z)), Hdown2.
    + apply Permutation_trans
        with (map comp_usd (sort_values argsort1 roster false));
        [apply Permutation_sym, Permutation_rev|].
      apply (Permutation_trans Hp), Permutation_rev.
Qed.

(** X19: two sorts that both keep numpy's promise may order rows of equal
    compensation differently, but they select the same compensations in
    the same order, and so give the same summary. *)
Theorem statistics_do_not_depend_on_the_sort
    (roster : list (row Z)) (N : Z) (ascending : bool) :
  map comp_usd (select argsort1 roster N ascending)
  = map comp_usd (select argsort2 roster N ascending)
  /\ summarize (select argsort1 roster N ascending)
     = summarize (select argsort2 roster N ascending).
Proof.
  assert (H : map comp_usd (select argsort1 roster N ascending)
              = map comp_usd (select argsort2 roster N ascending)).
  { unfold select. rewrite !head_map, sorted_pay_is_the_same. reflexivity. }
  split; [exact H|apply summarize_of_pay, H].
Qed.

End TwoSorts.

Lemma statistics_do_not_depend_on_the_sort_witness :
  map comp_usd (select Numpy.argsort_stable staff 3 true)
  = map comp_usd (select argsort_reversing staff 3 true)
  /\ summarize (select Numpy.argsort_stable staff 3 true)
     = summarize (select argsort_reversing staff 3 true).
Proof.
  apply (statistics_do_not_depend_on_the_sort
           Numpy.argsort_stable argsort_reversing
           NumpyFacts.argsort_stable_perm NumpyFacts.argsort_stable_sorted
           NumpyFacts.argsort_reversing_perm NumpyFacts.argsort_reversing_sorted
           staff 3 true).
Defined.

(** The two sorts do order the rows of [staff] differently. *)
Example the_two_sorts_differ :
  select Numpy.argsort_stable staff 3 true
  <> select argsort_reversing staff 3 true.
Proof. vm_compute. discriminate. Qed.

End SummaryMore.

(** ** Rows on the same pay *)

Module TieFacts.

Import Pandas App Notions Examples SelectionFacts.

Lemma Forall2_same_image {A B : Type} (f : A -> B) (l1 l2 : list A) :
  map f l1 = map f l2 ->
  Forall2 (fun a b => f a = f b /\ In a l1 /\ In b l2) l1 l2.
Proof.
  revert l2. induction l1 as [|a l1 IH]; intros [|b l2] H; try discriminate;
    [constructor|].
  simpl in H. injection H as Hab H. constructor.
  - simpl. auto.
  - eapply Forall2_impl; [|apply IH, H].
    simpl. intros a' b' (E & Ha & Hb). auto.
Qed.

Lemma Forall2_prefix {A B : Type} (R : A -> B -> Prop)
    (n : nat) (l1 : list A) (l2 : list B) :
  Forall2 R l1 l2 -> Forall2 R (firstn n l1) (firstn n l2).
Proof.
  intros H. revert n. induction H as [|a b l1 l2 Hab _ IH]; intros [|n];
    simpl; constructor; auto.
Qed.

Lemma Forall2_eq_is_eq {A : Type} (l1 l2 : list A) :
  Forall2 eq l1 l2 -> l1 = l2.
Proof. induction 1; congruence. Qed.

Section TwoSorts.

Variables argsort1 argsort2 : list Z -> list nat.

Hypothesis argsort1_perm :
  forall v, Permutation (argsort1 v) (seq 0 (List.length v)).
Hypothesis argsort1_sorted :
  forall v, Sorted Z.le (map (key_at v) (argsort1 v)).
Hypothesis argsort2_perm :
  forall v, Permutation (argsort2 v) (seq 0 (List.length v)).
Hypothesis argsort2_sorted :
  forall v, Sorted Z.le (map (key_at v) (argsort2 v)).

(** Position by position, the two sorted tables hold rows of the roster
    on the same pay. *)
Lemma sort_values_same_pay (roster : list (row Z)) (ascending : bool) :
  Forall2 (fun r1 r2 => comp_usd r1 = comp_usd r2
                        /\ In r1 roster /\ In r2 roster)
          (sort_values argsort1 roster ascending)
          (sort_values argsort2 roster ascending).
Proof.
  eapply Forall2_impl; [|apply (Forall2_same_image comp_usd);
    apply (SummaryMore.sorted_pay_is_the_same argsort1 argsort2);
    assumption].
  - simpl. intros r1 r2 (E & H1 & H2). split; [exact E|]. split.
    + apply (Permutation_in _
               (SelectionMore.sort_values_perm argsort1 argsort1_perm
                  roster ascending)), H1.
    + apply (Permutation_in _
               (SelectionMore.sort_values_perm argsort2 argsort2_perm
                  roster ascending)), H2.
Qed.

(** C1, as the code has it: the selection is fixed up to the order of the
    rows on the same pay.  Whichever sort that keeps numpy's promise
    [sort_values] runs, every position of the selection holds the same
    compensation, and the same row when no other row of the roster is paid
    the same; so the selection is the same under every such sort when no
    two rows of the roster are paid the same.  For every roster, target
    count and direction. *)
Theorem select_fixed_up_to_ties
    (roster : list (row Z)) (N : Z) (ascending : bool) :
  same_up_to_ties roster (select argsort1 roster N ascending)
                         (select argsort2 roster N ascending)
  /\ ((forall r, In r roster -> unrivalled roster r) ->
      select argsort1 roster N ascending
      = select argsort2 roster N ascending).
Proof.
  pose proof (sort_values_same_pay roster ascending) as Htables.
  assert (Hsel : Forall2 (fun r1 r2 => comp_usd r1 = comp_usd r2
                                       /\ In r1 roster /\ In r2 roster)
                   (select argsort1 roster N ascending)
                   (select argsort2 roster N ascending)).
  { unfold select, head.
    rewrite (length_sort_values argsort1 argsort1_perm),
            (length_sort_values argsort2 argsort2_perm).
    destruct (0 <=? N)%Z; apply Forall2_prefix, Htables. }
  split.
  - unfold same_up_to_ties. revert Hsel. apply Forall2_impl.
    intros r1 r2 (E & H1 & H2). split; [exact E|].
    intros Hr1. symmetry. apply Hr1; [exact H2|]. symmetry. exact E.
  - intros Hall. apply Forall2_eq_is_eq. revert Hsel. apply Forall2_impl.
    intros r1 r2 (E & H1 & H2). symmetry. apply (Hall r1 H1); [exact H2|].
    symmetry. exact E.
Qed.

End TwoSorts.

Lemma select_fixed_up_to_ties_witness :
  same_up_to_ties staff (select argsort_reversing staff 4 true)
                        (select Numpy.argsort_stable staff 4 true).
Proof.
  apply (proj1 (select_fixed_up_to_ties
                  argsort_reversing Numpy.argsort_stable
                  NumpyFacts.argsort_reversing_perm
                  NumpyFacts.argsort_reversing_sorted
                  NumpyFacts.argsort_stable_perm
                  NumpyFacts.argsort_stable_sorted staff 4 true)).
Defined.

End TieFacts.


(** ** More on the page *)

Module PageMore.

Import Float64 Pandas App Notions Examples.
Import SelectionFacts SelectionMore SummaryFacts SummaryMore.



(** X13: once the roster has loaded the page shows no error box and the
    run is not stopped, whatever the inputs. *)
Theorem no_error_box_once_loaded
    (floatify : string -> numeral) (argsort : list Z -> list nat)
    (csv : result RawFrame) (roster_df : DataFrame Z) (ui : Inputs) :
  load_roster floatify csv = Ok roster_df ->
  filter is_error (fst (run floatify argsort csv ui)) = []
  /\ snd (run floatify argsort csv ui) <> Stopped.
Proof.
  intros Hload. unfold run, dashboard. rewrite Hload.
  destruct (summarize _) as [s|e]; [|split; [reflexivity|discriminate]].
  destruct (empty (select _ _ _ _)); [split; [reflexivity|discriminate]|].
  destruct (negb (empty _)); [split; [reflexivity|discriminate]|].
  destruct (_ && _); split; try reflexivity; discriminate.
Qed.

Lemma no_error_box_once_loaded_witness :
  filter is_error
    (fst (run Numpy.decimal_to_numeric Numpy.argsort_quicksort
              (Ok full_file) one_lowest)) = []
  /\ snd (run Numpy.decimal_to_numeric Numpy.argsort_quicksort
               (Ok full_file) one_lowest) <> Stopped.
Proof.
  apply (no_error_box_once_loaded Numpy.decimal_to_numeric
           Numpy.argsort_quicksort (Ok full_file)
           {| columns := raw_columns full_file;
              rows := [ {| cells := ["E1"; "Ada"; "Engineer"; "R&D"; "Boston";
                                     "70000"]%string;
                           comp_usd := 70000 |};
                        {| cells := ["E2"; "Bo"; "Analyst"; "Finance";
                                     "Austin"; "50000"]%string;
                           comp_usd := 50000 |} ] |} one_lowest).
  vm_compute. reflexivity.
Defined.

(** *** With rows selected *)

Lemma abs_sum_app (l1 l2 : list Z) :
  abs_sum (l1 ++ l2) = (abs_sum l1 + abs_sum l2)%Z.
Proof. induction l1 as [|x l1 IH]; simpl; [reflexivity|]. rewrite IH. lia. Qed.

Lemma abs_sum_perm (l1 l2 : list Z) :
  Permutation l1 l2 -> abs_sum l1 = abs_sum l2.
Proof. induction 1; simpl; lia. Qed.

Section DefaultSort.

Variable floatify : string -> numeral.
Variable argsort : list Z -> list nat.

Hypothesis argsort_perm :
  forall v, Permutation (argsort v) (seq 0 (List.length v)).

(** A selection stays within the bounds of the roster it is taken from,
    and is not empty when the roster is not and the slider is above 0. *)
Lemma selection_of_bounded_roster
    (roster : list (row Z)) (N : Z) (ascending : bool) :
  roster <> [] -> (0 < N)%Z ->
  (Z.of_nat (List.length roster) <= 2 ^ 53)%Z ->
  (abs_sum (map comp_usd roster) <= 2 ^ 52)%Z ->
  select argsort roster N ascending <> []
  /\ (Z.of_nat (List.length (select argsort roster N ascending)) <= 2 ^ 53)%Z
  /\ (abs_sum (map comp_usd (select argsort roster N ascending))
      <= 2 ^ 52)%Z.
Proof.
  intros Hne HN Hlen Hb. unfold select, head.
  destruct (0 <=? N)%Z eqn:E; [|lia].
  pose proof (sort_values_perm argsort argsort_perm roster ascending) as Hp.
  set (table := sort_values argsort roster ascending) in *.
  pose proof (Permutation_length Hp) as Hl.
  assert (Hroster : (0 < List.length roster)%nat)
    by (destruct roster; [congruence|simpl; lia]).
  repeat split.
  - intros Hnil. apply (f_equal (@List.length _)) in Hnil.
    rewrite length_firstn in Hnil. simpl in Hnil. lia.
  - rewrite length_firstn. lia.
  - rewrite <- (firstn_skipn (Z.to_nat N) table) in Hp.
    apply (Permutation_map comp_usd), abs_sum_perm in Hp.
    rewrite map_app, abs_sum_app in Hp.
    pose proof (abs_sum_nonneg (map comp_usd (skipn (Z.to_nat N) table))).
    lia.
Qed.

(** X14: a file that loads with a roster of ordinary size but lacks some
    of the six columns of the table makes the run raise one [KeyError]
    once a row is selected, whose message lists all the missing columns:
    the sidebar, the four cards and the heading of the table are shown,
    the table, the download button and the chart are not. *)
Theorem missing_display_column_crashes
    (csv : result RawFrame) (roster_df : DataFrame Z) (ui : Inputs) :
  load_roster floatify csv = Ok roster_df ->
  rows roster_df <> [] ->
  (0 < target_headcount ui)%Z ->
  (Z.of_nat (List.length (rows roster_df)) <= 2 ^ 53)%Z ->
  (abs_sum (map comp_usd (rows roster_df)) <= 2 ^ 52)%Z ->
  let missing :=
    filter (fun c => negb (has_column c (columns roster_df))) display_cols in
  missing <> [] ->
  let total_employees := Z.of_nat (List.length (rows roster_df)) in
  let selected :=
    select argsort (rows roster_df) (target_headcount ui)
           (startswith "Lowest" (priority_option ui)) in
  run floatify argsort csv ui
  = (page_head
     ++ [ st_sidebar_header "Scenario inputs";
          st_sidebar_slider 0 total_employees (Z.min 10 total_employees);
          st_sidebar_radio "Prioritize by compensation";
          st_sidebar_selectbox "Accent color";
          st_columns;
          card_headcount (Z.of_nat (List.length selected)) total_employees;
          card_usd "Total compensation" (payroll selected);
          card_usd "Average compensation"
                   (Z.quot (payroll selected)
                           (Z.of_nat (List.length selected)));
          card_usd "Median compensation"
                   (conventional_median (map comp_usd selected));
          st_markdown "### Selected employees" ],
     Crashed (KeyError (not_in_index missing))).
Proof.
  intros Hload Hne HN Hlen Hb missing Hmissing total_employees selected.
  destruct (selection_of_bounded_roster (rows roster_df) (target_headcount ui)
              (startswith "Lowest" (priority_option ui)) Hne HN Hlen Hb)
    as (Hsel & Hsel_len & Hsel_abs).
  fold selected in Hsel, Hsel_len, Hsel_abs.
  unfold run, dashboard. rewrite Hload. fold selected.
  rewrite (summarize_within_bounds selected Hsel Hsel_len Hsel_abs).
  assert (Hempty : empty selected = false)
    by (unfold empty; destruct selected; [congruence|reflexivity]).
  rewrite Hempty. fold missing.
  assert (Hsome : empty missing = false)
    by (unfold empty; destruct missing; [congruence|reflexivity]).
  rewrite Hsome. reflexivity.
Qed.

Lemma no_display_column_missing (cols : list string) :
  (forall c, In c display_cols -> has_column c cols = true) ->
  filter (fun c => negb (has_column c cols)) display_cols = [].
Proof.
  intros Hcols. unfold display_cols. simpl.
  rewrite !Hcols by (unfold display_cols; simpl; tauto). reflexivity.
Qed.

(** X15: a file that loads with a roster of ordinary size, has the six
    columns of the table and not both a column [index] and a column
    [level_0] gives, once a row is selected, the whole page: the cards
    with the number of selected rows, their exact total, their truncated
    mean and their conventional median, then the table, the download
    button and the chart of the selected rows, and the run finishes. *)
Theorem page_shows_the_selection
    (csv : result RawFrame) (roster_df : DataFrame Z) (ui : Inputs) :
  load_roster floatify csv = Ok roster_df ->
  rows roster_df <> [] ->
  (0 < target_headcount ui)%Z ->
  (Z.of_nat (List.length (rows roster_df)) <= 2 ^ 53)%Z ->
  (abs_sum (map comp_usd (rows roster_df)) <= 2 ^ 52)%Z ->
  (forall c, In c display_cols -> has_column c (columns roster_df) = true) ->
  has_column "index" (columns roster_df)
  && has_column "level_0" (columns roster_df) = false ->
  let total_employees := Z.of_nat (List.length (rows roster_df)) in
  let selected :=
    select argsort (rows roster_df) (target_headcount ui)
           (startswith "Lowest" (priority_option ui)) in
  run floatify argsort csv ui
  = (page_head
     ++ [ st_sidebar_header "Scenario inputs";
          st_sidebar_slider 0 total_employees (Z.min 10 total_employees);
          st_sidebar_radio "Prioritize by compensation";
          st_sidebar_selectbox "Accent color";
          st_columns;
          card_headcount (Z.of_nat (List.length selected)) total_employees;
          card_usd "Total compensation" (payroll selected);
          card_usd "Average compensation"
                   (Z.quot (payroll selected)
                           (Z.of_nat (List.length selected)));
          card_usd "Median compensation"
                   (conventional_median (map comp_usd selected));
          st_markdown "### Selected employees";
          st_markdown "<div class=data-table>";
          st_table selected;
          st_markdown "</div>";
          st_download_button selected;
          st_markdown "### Compensation breakdown";
          st_altair_chart selected;
          st_markdown "---";
          st_caption total_employees ],
     Finished).
Proof.
  intros Hload Hne HN Hlen Hb Hcols Hindex total_employees selected.
  destruct (selection_of_bounded_roster (rows roster_df) (target_headcount ui)
              (startswith "Lowest" (priority_option ui)) Hne HN Hlen Hb)
    as (Hsel & Hsel_len & Hsel_abs).
  fold selected in Hsel, Hsel_len, Hsel_abs.
  unfold run, dashboard. rewrite Hload. fold selected.
  rewrite (summarize_within_bounds selected Hsel Hsel_len Hsel_abs).
  assert (Hempty : empty selected = false)
    by (unfold empty; destruct selected; [congruence|reflexivity]).
  rewrite Hempty, (no_display_column_missing _ Hcols), Hindex. reflexivity.
Qed.

(** X21: a file that loads with a roster of ordinary size and has the six
    columns of the table, but also a column [index] and a column
    [level_0], makes line 112 raise [ValueError] once a row is selected:
    the cards, the table, the download button and the heading of the chart
    are shown, the chart and the caption are not. *)
Theorem index_columns_crash_the_chart
    (csv : result RawFrame) (roster_df : DataFrame Z) (ui : Inputs) :
  load_roster floatify csv = Ok roster_df ->
  rows roster_df <> [] ->
  (0 < target_headcount ui)%Z ->
  (Z.of_nat (List.length (rows roster_df)) <= 2 ^ 53)%Z ->
  (abs_sum (map comp_usd (rows roster_df)) <= 2 ^ 52)%Z ->
  (forall c, In c display_cols -> has_column c (columns roster_df) = true) ->
  has_column "index" (columns roster_df) = true ->
  has_column "level_0" (columns roster_df) = true ->
  let total_employees := Z.of_nat (List.length (rows roster_df)) in
  let selected :=
    select argsort (rows roster_df) (target_headcount ui)
           (startswith "Lowest" (priority_option ui)) in
  run floatify argsort csv ui
  = (page_head
     ++ [ st_sidebar_header "Scenario inputs";
          st_sidebar_slider 0 total_employees (Z.min 10 total_employees);
          st_sidebar_radio "Prioritize by compensation";
          st_sidebar_selectbox "Accent color";
          st_columns;
          card_headcount (Z.of_nat (List.length selected)) total_employees;
          card_usd "Total compensation" (payroll selected);
          card_usd "Average compensation"
                   (Z.quot (payroll selected)
                           (Z.of_nat (List.length selected)));
          card_usd "Median compensation"
                   (conventional_median (map comp_usd selected));
          st_markdown "### Selected employees";
          st_markdown "<div class=data-table>";
          st_table selected;
          st_markdown "</div>";
          st_download_button selected;
          st_markdown "### Compensation breakdown" ],
     Crashed (ValueError "cannot insert level_0, already exists")).
Proof.
  intros Hload Hne HN Hlen Hb Hcols Hindex Hlevel total_employees selected.
  destruct (selection_of_bounded_roster (rows roster_df) (target_headcount ui)
              (startswith "Lowest" (priority_option ui)) Hne HN Hlen Hb)
    as (Hsel & Hsel_len & Hsel_abs).
  fold selected in Hsel, Hsel_len, Hsel_abs.
  unfold run, dashboard. rewrite Hload. fold selected.
  rewrite (summarize_within_bounds selected Hsel Hsel_len Hsel_abs).
  assert (Hempty : empty selected = false)
    by (unfold empty; destruct selected; [congruence|reflexivity]).
  rewrite Hempty, (no_display_column_missing _ Hcols), Hindex, Hlevel.
  reflexivity.
Qed.

End DefaultSort.

Lemma missing_display_column_crashes_witness :
  snd (run Numpy.decimal_to_numeric Numpy.argsort_stable
           (Ok nameless_file) one_lowest)
  = Crashed (KeyError
               "['name', 'role', 'department', 'location'] not in index").
Proof.
  rewrite (missing_display_column_crashes Numpy.decimal_to_numeric
             Numpy.argsort_stable NumpyFacts.argsort_stable_perm
             (Ok nameless_file)
             {| columns := raw_columns nameless_file;
                rows := [ {| cells := ["E1"; "100"]%string; comp_usd := 100 |};
                          {| cells := ["E2"; "250"]%string; comp_usd := 250 |} ] |}
             one_lowest).
  - reflexivity.
  - vm_compute. reflexivity.
  - discriminate.
  - reflexivity.
  - vm_compute. discriminate.
  - vm_compute. discriminate.
  - discriminate.
Defined.

Lemma page_shows_the_selection_witness :
  snd (run Numpy.decimal_to_numeric Numpy.argsort_stable
           (Ok full_file) one_lowest)
  = Finished.
Proof.
  rewrite (page_shows_the_selection Numpy.decimal_to_numeric
             Numpy.argsort_stable NumpyFacts.argsort_stable_perm
             (Ok full_file)
             {| columns := raw_columns full_file;
                rows := [ {| cells := ["E1"; "Ada"; "Engineer"; "R&D";
                                       "Boston"; "70000"]%string;
                             comp_usd := 70000 |};
                          {| cells := ["E2"; "Bo"; "Analyst"; "Finance";
                                       "Austin"; "50000"]%string;
                             comp_usd := 50000 |} ] |}
             one_lowest).
  - reflexivity.
  - vm_compute. reflexivity.
  - discriminate.
  - reflexivity.
  - vm_compute. discriminate.
  - vm_compute. discriminate.
  - intros c Hc. simpl in Hc.
    destruct Hc as [<-|[<-|[<-|[<-|[<-|[<-|[]]]]]]]; reflexivity.
  - reflexivity.
Defined.

Lemma index_columns_crash_the_chart_witness :
  snd (run Numpy.decimal_to_numeric Numpy.argsort_stable
           (Ok reexported_file) one_lowest)
  = Crashed (ValueError "cannot insert level_0, already exists").
Proof.
  rewrite (index_columns_crash_the_chart Numpy.decimal_to_numeric
             Numpy.argsort_stable NumpyFacts.argsort_stable_perm
             (Ok reexported_file)
             {| columns := raw_columns reexported_file;
                rows := [ {| cells := ["0"; "0"; "E1"; "Ada"; "Engineer";
                                       "R&D"; "Boston"; "70000"]%string;
                             comp_usd := 70000 |};
                          {| cells := ["1"; "1"; "E2"; "Bo"; "Analyst";
                                       "Finance"; "Austin"; "50000"]%string;
                             comp_usd := 50000 |} ] |}
             one_lowest).
  - reflexivity.
  - vm_compute. reflexivity.
  - discriminate.
  - reflexivity.
  - vm_compute. discriminate.
  - vm_compute. discriminate.
  - intros c Hc. simpl in Hc.
    destruct Hc as [<-|[<-|[<-|[<-|[<-|[<-|[]]]]]]]; reflexivity.
  - reflexivity.
  - reflexivity.
Defined.

End PageMore.

(** ** Amounts as text *)

Module FormatFacts.

Import Float64 Pandas App Notions Float64Facts.

Local Open Scope string_scope.

Lemma list_ascii_of_string_app (a b : string) :
  list_ascii_of_string (a ++ b)
  = (list_ascii_of_string a ++ list_ascii_of_string b)%list.
Proof. induction a as [|c a IH]; simpl; [reflexivity|]. rewrite IH. reflexivity. Qed.

Lemma string_of_list_ascii_app (l1 l2 : list ascii) :
  string_of_list_ascii (l1 ++ l2)
  = string_of_list_ascii l1 ++ string_of_list_ascii l2.
Proof. induction l1 as [|c l1 IH]; simpl; [reflexivity|]. rewrite IH. reflexivity. Qed.

Lemma without_commas_app (a b : string) :
  without_commas (a ++ b) = without_commas a ++ without_commas b.
Proof.
  unfold without_commas.
  rewrite list_ascii_of_string_app, filter_app, string_of_list_ascii_app.
  reflexivity.
Qed.

(** *** Digits *)

Lemma digits_of_uint (d : Decimal.uint) :
  Forall (fun c => is_digit c = true)
         (list_ascii_of_string (DecimalString.NilEmpty.string_of_uint d)).
Proof. induction d; simpl; constructor; auto. Qed.

Lemma decimal_digits (n : N) :
  Forall (fun c => is_digit c = true) (list_ascii_of_string (decimal n)).
Proof.
  unfold decimal, DecimalString.NilZero.string_of_uint.
  destruct (N.to_uint n) eqn:E; try (rewrite <- E; apply digits_of_uint).
  repeat constructor.
Qed.

Lemma digit_is_no_comma (c : ascii) : is_digit c = true -> is_comma c = false.
Proof.
  unfold is_comma. destruct (Ascii.eqb_spec c ","%char) as [->|]; [|reflexivity].
  discriminate.
Qed.

Lemma to_uint_nonnil (n : N) : N.to_uint n <> Decimal.Nil.
Proof.
  destruct n as [|p]; [discriminate|].
  apply DecimalPos.Unsigned.to_uint_nonnil.
Qed.

Lemma decimal_inj (a b : N) : decimal a = decimal b -> a = b.
Proof.
  unfold decimal. intros H.
  apply (f_equal DecimalString.NilZero.uint_of_string) in H.
  rewrite !DecimalString.NilZero.usu in H by apply to_uint_nonnil.
  injection H as H. apply DecimalN.Unsigned.to_uint_inj, H.
Qed.

(** *** Commas *)

Lemma filter_commas (k : nat) (ds : list ascii) :
  Forall (fun c => is_comma c = false) ds ->
  filter (fun c => negb (is_comma c)) (commas k ds) = ds.
Proof.
  intros H. revert k. induction H as [|d ds Hd _ IH]; intros k; simpl;
    [reflexivity|].
  destruct (k =? 3)%nat; simpl; rewrite Hd; simpl; rewrite IH; reflexivity.
Qed.

Lemma without_commas_thousands (s : string) :
  Forall (fun c => is_digit c = true) (list_ascii_of_string s) ->
  without_commas (thousands s) = s.
Proof.
  intros H. unfold without_commas, thousands.
  rewrite list_ascii_of_string_of_list_ascii, filter_rev, filter_commas.
  - rewrite rev_involutive. apply string_of_list_ascii_of_string.
  - apply Forall_rev. revert H. apply Forall_impl.
    intros c. apply digit_is_no_comma.
Qed.

(** *** [_fmt] *)

(** Within 53 bits the text is the sign, the digits of the amount and the
    commas. *)
Lemma fmt_within_53_bits (x : Z) :
  (Z.abs x <= 2 ^ 53)%Z ->
  _fmt x = "$" ++ sign_text x ++ thousands (decimal (Z.abs_N x)).
Proof.
  intros Hx. unfold _fmt, sign_text.
  destruct (of_int_holds x Hx) as (q & -> & Hq). simpl format_f0.
  rewrite Hq, half_even_exact by lia.
  replace (x * Zpos (Qden q) <? 0)%Z with (x <? 0)%Z; [reflexivity|].
  destruct (Z.ltb_spec x 0), (Z.ltb_spec (x * Zpos (Qden q)) 0);
    try reflexivity; nia.
Qed.

(** X16: for an amount within 53 bits, [_fmt] writes the dollar sign, a
    minus sign for a negative amount, and the decimal digits of the amount
    with commas put in: taking the commas out leaves exactly that. *)
Theorem fmt_shows_the_amount (x : Z) :
  (Z.abs x <= 2 ^ 53)%Z ->
  without_commas (_fmt x) = "$" ++ sign_text x ++ decimal (Z.abs_N x).
Proof.
  intros Hx. rewrite (fmt_within_53_bits x Hx), !without_commas_app.
  rewrite without_commas_thousands by apply decimal_digits.
  unfold sign_text. destruct (x <? 0)%Z; reflexivity.
Qed.

Lemma fmt_shows_the_amount_witness :
  without_commas (_fmt (-1234567)) = "$-1234567".
Proof.
  apply (fmt_shows_the_amount (-1234567)).
  vm_compute. discriminate.
Defined.

(** X17: two different amounts within 53 bits are written differently by
    [_fmt]. *)
Theorem fmt_injective (x y : Z) :
  (Z.abs x <= 2 ^ 53)%Z -> (Z.abs y <= 2 ^ 53)%Z ->
  x <> y -> _fmt x <> _fmt y.
Proof.
  intros Hx Hy Hne H. apply Hne. apply (f_equal without_commas) in H.
  rewrite !fmt_within_53_bits, !without_commas_app in H by assumption.
  rewrite !without_commas_thousands in H by apply decimal_digits.
  simpl in H. injection H as H. unfold sign_text in H.
  assert (Hfirst : forall n rest, decimal n <> String "-" rest).
  { intros n rest E. pose proof (decimal_digits n) as Hd.
    rewrite E in Hd. inversion Hd as [|? ? Hc _]. discriminate. }
  destruct (Z.ltb_spec x 0), (Z.ltb_spec y 0); simpl in H.
  - injection H as H. apply decimal_inj in H. lia.
  - symmetry in H. apply Hfirst in H. contradiction.
  - apply Hfirst in H. contradiction.
  - apply decimal_inj in H. lia.
Qed.

Lemma fmt_injective_witness : _fmt 59999 <> _fmt (-59999).
Proof.
  apply (fmt_injective 59999 (-59999)); vm_compute; discriminate.
Defined.

(** *** Where the commas are *)

Lemma commas_positions (ds : list ascii) :
  Forall (fun c => is_comma c = false) ds ->
  forall k i, (k <= 3)%nat -> (i < List.length (commas k ds))%nat ->
  is_comma (nth i (commas k ds) " "%char) = true <-> ((i + k) mod 4 = 3)%nat.
Proof.
  induction 1 as [|d ds Hd _ IH]; intros k i Hk Hi; [simpl in Hi; lia|].
  cbn [commas] in *. destruct (Nat.eqb_spec k 3) as [->|Hk3].
  - destruct i as [|[|j]]; cbn [nth List.length] in *.
    + split; reflexivity.
    + rewrite Hd. split; intros E; [discriminate|].
      vm_compute in E. discriminate.
    + rewrite (IH 1%nat j) by lia.
      replace (S (S j) + 3)%nat with (j + 1 + 1 * 4)%nat by lia.
      rewrite Nat.Div0.mod_add. reflexivity.
  - destruct i as [|j]; cbn [nth List.length] in *.
    + rewrite Hd, Nat.add_0_l, Nat.mod_small by lia.
      split; [discriminate|lia].
    + rewrite (IH (S k) j) by lia.
      replace (j + S k)%nat with (S j + k)%nat by lia. reflexivity.
Qed.

Lemma commas_nonnil (k : nat) (d : ascii) (ds : list ascii) :
  commas k (d :: ds) <> [].
Proof. cbn [commas]. destruct (k =? 3)%nat; discriminate. Qed.

Lemma last_cons_nonnil {A : Type} (x d : A) (l : list A) :
  l <> [] -> last (x :: l) d = last l d.
Proof. destruct l; [congruence|reflexivity]. Qed.

Lemma last_in {A : Type} (l : list A) (d : A) : l <> [] -> In (last l d) l.
Proof.
  induction l as [|x l IH]; intros Hne; [congruence|].
  destruct l as [|y l]; [left; reflexivity|].
  right. apply IH. discriminate.
Qed.

Lemma commas_last (ds : list ascii) (k : nat) (c : ascii) :
  ds <> [] -> last (commas k ds) c = last ds c.
Proof.
  revert k. induction ds as [|d ds IH]; intros k Hne; [congruence|].
  destruct ds as [|d' ds'].
  - cbn [commas]. destruct (k =? 3)%nat; reflexivity.
  - rewrite (last_cons_nonnil d c (d' :: ds')) by discriminate.
    change (commas k (d :: d' :: ds'))
      with (if (k =? 3)%nat then ","%char :: d :: commas 1 (d' :: ds')
            else d :: commas (S k) (d' :: ds')).
    destruct (k =? 3)%nat.
    + rewrite (last_cons_nonnil ","%char c) by discriminate.
      rewrite last_cons_nonnil by apply commas_nonnil.
      apply IH. discriminate.
    + rewrite last_cons_nonnil by apply commas_nonnil.
      apply IH. discriminate.
Qed.

(** X18: in the digits of an amount with the commas put in, counting the
    characters from the right from 0, the commas are exactly at the
    positions 3, 7, 11, ..., and the text begins with a digit. *)
Theorem thousands_commas_every_three (n : N) :
  (forall i,
     (i < String.length (thousands (decimal n)))%nat ->
     is_comma (nth i (rev (list_ascii_of_string (thousands (decimal n))))
                   " "%char) = true
     <-> (i mod 4 = 3)%nat)
  /\ exists c rest,
       thousands (decimal n) = String c rest /\ is_digit c = true.
Proof.
  unfold thousands.
  set (ds := rev (list_ascii_of_string (decimal n))).
  assert (Hds : Forall (fun c => is_digit c = true) ds)
    by (apply Forall_rev, decimal_digits).
  assert (Hnc : Forall (fun c => is_comma c = false) ds)
    by (revert Hds; apply Forall_impl; intros c; apply digit_is_no_comma).
  rewrite list_ascii_of_string_of_list_ascii, rev_involutive.
  split.
  - intros i Hi.
    rewrite <- (Nat.add_0_r i) at 2. apply commas_positions; [exact Hnc|lia|].
    rewrite <- (length_rev (commas 0 ds)).
    rewrite <- (list_ascii_of_string_of_list_ascii (rev (commas 0 ds))).
    clear -Hi. revert Hi.
    generalize (string_of_list_ascii (rev (commas 0 ds))). intros t.
    assert (E : List.length (list_ascii_of_string t) = String.length t)
      by (induction t; simpl; congruence).
    rewrite E. auto.
  - assert (Hne : ds <> []).
    { unfold ds. intros E. apply (f_equal (@rev ascii)) in E.
      rewrite rev_involutive in E. simpl in E.
      unfold decimal, DecimalString.NilZero.string_of_uint in E.
      pose proof (to_uint_nonnil n) as Hn.
      destruct (N.to_uint n); discriminate || congruence. }
    assert (Hcne : commas 0 ds <> []).
    { destruct ds as [|d ds']; [congruence|]. simpl. discriminate. }
    pose proof (app_removelast_last " "%char Hcne) as Hsplit.
    rewrite Hsplit, rev_app_distr. simpl.
    eexists. eexists. split; [reflexivity|].
    rewrite (commas_last ds 0 " "%char Hne).
    rewrite Forall_forall in Hds. apply Hds.
    apply last_in, Hne.
Qed.

End FormatFacts.
